(** * flags-gen: the parser of annotated structs, embedded and verified

The development follows [pkg/types/types.go] and [pkg/parser/parser.go]:
the Go standard-library functions the parser calls are modelled first
([strings], [regexp], [strconv], [fmt]), then the fragment of [go/ast]
the parser walks, then the parser itself, function by function, under
the names of the source.  Go strings are byte strings and are modelled
as [string] (a list of 8-bit characters). *)

From Stdlib Require Import Strings.String Strings.Ascii ZArith Lia Bool.
From Stdlib Require Import Numbers.DecimalString Numbers.DecimalPos.
From stdpp Require Import base tactics option list gmap strings.

Local Open Scope Z_scope.
Local Open Scope nat_scope.

(** Appending strings unfolds under [simpl] in this file. *)
#[local] Arguments String.append !_ _ / : simpl nomatch.

(** ** Character classes *)

Module char.

Definition code (c : ascii) : nat := nat_of_ascii c.

Definition between (lo hi c : ascii) : bool :=
  (code lo <=? code c) && (code c <=? code hi).

(** [[A-Z]] *)
Definition upper (c : ascii) : bool := between "A" "Z" c.
(** [[a-z]] *)
Definition lower (c : ascii) : bool := between "a" "z" c.
(** [[0-9]] *)
Definition digit (c : ascii) : bool := between "0" "9" c.
(** a byte below [utf8.RuneSelf] (0x80) *)
Definition is_ascii (c : ascii) : bool := code c <? 128.
(** the double quote, byte 34 *)
Definition dquote : ascii := "034".
(** the class of every byte but the double quote *)
Definition not_quote (c : ascii) : bool := negb (Ascii.eqb c dquote).

(** the ASCII lower-casing step of [strings.ToLower]: [c += 'a' - 'A'] *)
Definition to_lower (c : ascii) : ascii :=
  if upper c then ascii_of_nat (code c + 32) else c.

(** the decimal value of a digit byte *)
Definition digit_value (c : ascii) : Z := Z.of_nat (code c - 48).

End char.

(** ** Unicode tables

Two library calls of the parser consult Unicode tables once a byte
[>= 0x80] is involved: [ast.IsExported] ([unicode.IsUpper] of the first
rune) and [strings.ToLower] ([unicode.ToLower] of every rune).  The
tables are no part of the repository; the parser is defined and verified
for arbitrary tables. *)

Module unicode.

Record tables := {
  (** [unicode.IsUpper] of the rune decoded at the head of a string that
      starts with a byte [>= 0x80] *)
  IsUpperHead : string -> bool;
  (** [strings.Map(unicode.ToLower, s)], the path [strings.ToLower] takes
      for a string holding a byte [>= 0x80] *)
  MapToLower : string -> string
}.

(** Tables for running the parser on inputs that hold ASCII bytes only,
    where no table is consulted. *)
Definition ascii_only : tables :=
  {| IsUpperHead := fun _ => false; MapToLower := fun s => s |}.

End unicode.

(** ** Package [strings] *)

Module strings.

Fixpoint forallb (p : ascii -> bool) (s : string) : bool :=
  match s with
  | EmptyString => true
  | String c s' => p c && forallb p s'
  end.

Fixpoint map (f : ascii -> ascii) (s : string) : string :=
  match s with
  | EmptyString => EmptyString
  | String c s' => String (f c) (map f s')
  end.

Fixpoint drop (n : nat) (s : string) : string :=
  match n, s with
  | S n', String _ s' => drop n' s'
  | _, _ => s
  end.

Fixpoint rev_append (s acc : string) : string :=
  match s with
  | EmptyString => acc
  | String c s' => rev_append s' (String c acc)
  end.

Definition rev (s : string) : string := rev_append s EmptyString.

(** [strings.HasPrefix(s, prefix)] *)
Definition HasPrefix (s p : string) : bool := String.prefix p s.

(** [strings.HasSuffix(s, suffix)] *)
Definition HasSuffix (s p : string) : bool := String.prefix (rev p) (rev s).

(** [strings.Contains(s, substr)] *)
Fixpoint Contains (s sub : string) : bool :=
  String.prefix sub s ||
  match s with
  | EmptyString => false
  | String _ s' => Contains s' sub
  end.

(** [strings.TrimPrefix(s, prefix)] *)
Definition TrimPrefix (s p : string) : string :=
  if HasPrefix s p then drop (String.length p) s else s.

(** [strings.TrimSuffix(s, suffix)] *)
Definition TrimSuffix (s p : string) : string :=
  if HasSuffix s p
  then String.substring 0 (String.length s - String.length p) s
  else s.

(** [strings.TrimLeft(s, cutset)] for a cutset of one byte *)
Fixpoint TrimLeft (s : string) (cut : ascii) : string :=
  match s with
  | String c s' => if Ascii.eqb c cut then TrimLeft s' cut else s
  | EmptyString => EmptyString
  end.

(** [strings.Trim(s, cutset)] for a cutset of one byte *)
Definition Trim (s : string) (cut : ascii) : string :=
  rev (TrimLeft (rev (TrimLeft s cut)) cut).

(** The encodings of the runes of [unicode.White_Space]: U+0009..U+000D,
    U+0020, U+0085, U+00A0, U+1680, U+2000..U+200A, U+2028, U+2029,
    U+202F, U+205F, U+3000. *)
Definition white_space : list string :=
  List.map (fun l => string_of_list_ascii (List.map ascii_of_nat l))
    [ [9]; [10]; [11]; [12]; [13]; [32];
      [194; 133]; [194; 160]; [225; 154; 128];
      [226; 128; 128]; [226; 128; 129]; [226; 128; 130]; [226; 128; 131];
      [226; 128; 132]; [226; 128; 133]; [226; 128; 134]; [226; 128; 135];
      [226; 128; 136]; [226; 128; 137]; [226; 128; 138];
      [226; 128; 168]; [226; 128; 169]; [226; 128; 175];
      [226; 129; 159]; [227; 128; 128] ].

(** the byte length of the white-space rune [s] starts with, if any *)
Definition space_head (pats : list string) (s : string) : option nat :=
  String.length <$> List.find (fun p => String.prefix p s) pats.

(** [strings.TrimLeftFunc(s, unicode.IsSpace)]: [s] without the white-space
    runes it starts with; [skip] counts the bytes still to remove of the
    rune found last. *)
Fixpoint trim_space_left (pats : list string) (s : string) (skip : nat) : string :=
  match s with
  | EmptyString => EmptyString
  | String _ s' =>
      match skip with
      | S n => trim_space_left pats s' n
      | O =>
          match space_head pats s with
          | Some (S n) => trim_space_left pats s' n
          | _ => s
          end
      end
  end.

(** [strings.TrimSpace(s)]: the white-space runes at both ends removed, the
    trailing ones read from the end. *)
Definition TrimSpace (s : string) : string :=
  let l := trim_space_left white_space s 0 in
  rev (trim_space_left (List.map rev white_space) (rev l) 0).

(** [strings.Split(s, sep)] for a separator of one byte: the pieces of [s]
    between the separators, one more than there are separators. *)
Fixpoint Split (s : string) (sep : ascii) : list string :=
  match s with
  | EmptyString => [EmptyString]
  | String c s' =>
      if Ascii.eqb c sep then EmptyString :: Split s' sep
      else match Split s' sep with
           | p :: ps => String c p :: ps
           | [] => [String c EmptyString]
           end
  end.

(** [strings.Join(elems, sep)] *)
Definition Join (elems : list string) (sep : string) : string :=
  String.concat sep elems.

(** [strings.ToLower(s)]: byte-wise on an ASCII string, through the
    Unicode tables otherwise. *)
Definition ToLower (U : unicode.tables) (s : string) : string :=
  if forallb char.is_ascii s then map char.to_lower s
  else unicode.MapToLower U s.

End strings.


(** ** Package [regexp]

The fragment of the syntax the parser's four patterns are written in: a
pattern is a sequence of literals and capture groups, a group a sequence
of byte classes, each taken once, or repeated greedily ([*], [+]).
Matching is leftmost-first with backtracking, as in Go.  No pattern of
the parser matches the empty string, and the treatment of empty matches
is left out. *)

Module regexp.

Inductive atom :=
| One (cls : ascii -> bool)        (* [c] *)
| Star (cls : ascii -> bool)       (* [c]* *)
| Plus (cls : ascii -> bool).      (* [c]+ *)

Inductive piece :=
| Lit (s : string)
| Group (atoms : list atom).

Definition Regexp := list piece.

Section Match.
Context {A : Type}.

(** the longest run of [cls] first, then shorter ones, until the
    continuation [k] accepts the rest *)
Fixpoint many (cls : ascii -> bool) (s : string)
    (k : string -> string -> option A) : option A :=
  match s with
  | String c s' =>
      if cls c then
        match many cls s' (fun m r => k (String c m) r) with
        | Some x => Some x
        | None => k EmptyString s
        end
      else k EmptyString s
  | EmptyString => k EmptyString s
  end.

Fixpoint atoms (l : list atom) (s : string)
    (k : string -> string -> option A) : option A :=
  match l with
  | [] => k EmptyString s
  | One cls :: l' =>
      match s with
      | String c s' =>
          if cls c then atoms l' s' (fun m r => k (String c m) r) else None
      | EmptyString => None
      end
  | Star cls :: l' =>
      many cls s (fun m1 r1 => atoms l' r1 (fun m2 r2 => k (m1 +:+ m2) r2))
  | Plus cls :: l' =>
      match s with
      | String c s' =>
          if cls c then
            many cls s' (fun m1 r1 =>
              atoms l' r1 (fun m2 r2 => k (String c (m1 +:+ m2)) r2))
          else None
      | EmptyString => None
      end
  end.

(** [k] receives the captured groups, the text matched and the rest *)
Fixpoint pieces (re : Regexp) (s : string)
    (k : list string -> string -> string -> option A) : option A :=
  match re with
  | [] => k [] EmptyString s
  | Lit p :: re' =>
      if String.prefix p s
      then pieces re' (strings.drop (String.length p) s)
             (fun caps m r => k caps (p +:+ m) r)
      else None
  | Group a :: re' =>
      atoms a s (fun g r =>
        pieces re' r (fun caps m r' => k (g :: caps) (g +:+ m) r'))
  end.
End Match.

(** A match of [re] at the head of [s]: the text matched followed by the
    groups (the slice Go calls the submatches), and the rest of [s]. *)
Definition match_here (re : Regexp) (s : string) : option (list string * string) :=
  pieces re s (fun caps m r => Some (m :: caps, r)).

(** [re.FindStringSubmatch(s)]: the submatches of the leftmost match, the
    nil slice when there is none. *)
Fixpoint FindStringSubmatch (re : Regexp) (s : string) : list string :=
  match match_here re s with
  | Some (caps, _) => caps
  | None =>
      match s with
      | String _ s' => FindStringSubmatch re s'
      | EmptyString => []
      end
  end.

(** the expansion of a template whose references are written [${d}] with
    [d] one digit *)
Fixpoint expand (template : string) (caps : list string) : string :=
  match template with
  | String "$" (String "{" (String d (String "}" t))) =>
      nth (char.code d - 48) caps EmptyString +:+ expand t caps
  | String c t => String c (expand t caps)
  | EmptyString => EmptyString
  end.

(** [skip] counts the bytes of [s] that belong to the match replaced last *)
Fixpoint replace_from (re : Regexp) (repl : string) (s : string) (skip : nat) : string :=
  match s with
  | EmptyString => EmptyString
  | String c s' =>
      match skip with
      | S n => replace_from re repl s' n
      | O =>
          match match_here re s with
          | Some (caps, _) =>
              match String.length (hd EmptyString caps) with
              | S n => expand repl caps +:+ replace_from re repl s' n
              | O => String c (replace_from re repl s' 0)
              end
          | None => String c (replace_from re repl s' 0)
          end
      end
  end.

(** [re.ReplaceAllString(src, repl)]: every match, left to right and
    without overlap, replaced by the expansion of [repl]. *)
Definition ReplaceAllString (re : Regexp) (src repl : string) : string :=
  replace_from re repl src 0.

End regexp.

(** ** Packages [strconv] and [fmt] *)

Module strconv.

(** [strconv.IntSize]; the parser is modelled as it runs on a 64-bit
    platform *)
Definition IntSize : Z := 64.

(** the value of a string of decimal digits, read left to right *)
Fixpoint digits (s : string) (acc : Z) : option Z :=
  match s with
  | EmptyString => Some acc
  | String c s' =>
      if char.digit c then digits s' (10 * acc + char.digit_value c)%Z
      else None
  end.

(** the range of [int] *)
Definition in_range (z : Z) : bool :=
  ((- 2 ^ (IntSize - 1) <=? z) && (z <? 2 ^ (IntSize - 1)))%Z.

(** [strconv.Atoi(s)]: an optional sign, then at least one decimal digit,
    the value in the range of [int]; [None] is the error. *)
Definition Atoi (s : string) : option Z :=
  let '(neg, ds) :=
    match s with
    | String "-" t => (true, t)
    | String "+" t => (false, t)
    | _ => (false, s)
    end in
  match ds with
  | EmptyString => None
  | _ =>
      n ← digits ds 0%Z;
      let z := (if neg then - n else n)%Z in
      if in_range z then Some z else None
  end.

(** [strconv.ParseBool(str)] *)
Definition ParseBool (str : string) : option bool :=
  if bool_decide (str ∈ ["1"; "t"; "T"; "TRUE"; "true"; "True"]) then Some true
  else if bool_decide (str ∈ ["0"; "f"; "F"; "FALSE"; "false"; "False"]) then Some false
  else None.

(** [strconv.Itoa(i)] *)
Definition Itoa (i : Z) : string := NilZero.string_of_int (Z.to_int i).

End strconv.

(** The dynamic values a default is stored as: Go's [interface{}] holding
    nothing, a [string], an [int], a [bool] or a [[]string]. *)
Inductive Value :=
| Nil
| Str (s : string)
| Int (i : Z)
| Bool (b : bool)
| Strs (l : list string).

#[global] Instance Value_eq_dec : EqDecision Value.
Proof. solve_decision. Defined.

Module fmt.

Definition bool_text (b : bool) : string := if b then "true" else "false".

(** the verb [%v] *)
Definition verb_v (v : Value) : string :=
  match v with
  | Nil => "<nil>"
  | Str s => s
  | Int i => strconv.Itoa i
  | Bool b => bool_text b
  | Strs l => "[" +:+ strings.Join l " " +:+ "]"
  end.

(** the verb [%s]; a value that is no string is reported in the output *)
Definition verb_s (v : Value) : string :=
  match v with
  | Nil => "%!s(<nil>)"
  | Str s => s
  | Int i => "%!s(int=" +:+ strconv.Itoa i +:+ ")"
  | Bool b => "%!s(bool=" +:+ bool_text b +:+ ")"
  | Strs l => "[" +:+ strings.Join l " " +:+ "]"
  end.

(** a text between double quotes *)
Definition quoted (s : string) : string :=
  String char.dquote (s +:+ String char.dquote EmptyString).

End fmt.

(** ** Package [types] *)

Module types.

Module FieldInfo.
Record t := mk {
  Name : string;
  Type_ : string;
  JSONTag : string;
  FlagName : string;
  Description : string;
  DefaultValue : Value;
  DefaultValueCode : string;
  Required : bool;
  ShortFlag : string;
  FlagMethod : string
}.

(** the struct literal [types.FieldInfo{Name: name}] *)
Definition named (name : string) : t :=
  mk name "" "" "" "" Nil "" false "" "".

Definition set_Type (x : string) (f : t) : t :=
  mk (Name f) x (JSONTag f) (FlagName f) (Description f) (DefaultValue f)
     (DefaultValueCode f) (Required f) (ShortFlag f) (FlagMethod f).
Definition set_JSONTag (x : string) (f : t) : t :=
  mk (Name f) (Type_ f) x (FlagName f) (Description f) (DefaultValue f)
     (DefaultValueCode f) (Required f) (ShortFlag f) (FlagMethod f).
Definition set_FlagName (x : string) (f : t) : t :=
  mk (Name f) (Type_ f) (JSONTag f) x (Description f) (DefaultValue f)
     (DefaultValueCode f) (Required f) (ShortFlag f) (FlagMethod f).
Definition set_Description (x : string) (f : t) : t :=
  mk (Name f) (Type_ f) (JSONTag f) (FlagName f) x (DefaultValue f)
     (DefaultValueCode f) (Required f) (ShortFlag f) (FlagMethod f).
Definition set_DefaultValue (x : Value) (f : t) : t :=
  mk (Name f) (Type_ f) (JSONTag f) (FlagName f) (Description f) x
     (DefaultValueCode f) (Required f) (ShortFlag f) (FlagMethod f).
Definition set_DefaultValueCode (x : string) (f : t) : t :=
  mk (Name f) (Type_ f) (JSONTag f) (FlagName f) (Description f)
     (DefaultValue f) x (Required f) (ShortFlag f) (FlagMethod f).
Definition set_FlagMethod (x : string) (f : t) : t :=
  mk (Name f) (Type_ f) (JSONTag f) (FlagName f) (Description f)
     (DefaultValue f) (DefaultValueCode f) (Required f) (ShortFlag f) x.
End FieldInfo.

Module StructInfo.
Record t := mk {
  Name : string;
  PackageName : string;
  Fields : list FieldInfo.t;
  Imports : list string
}.

(** [structInfo.Fields = append(structInfo.Fields, f)] *)
Definition append_Fields (f : FieldInfo.t) (s : t) : t :=
  mk (Name s) (PackageName s) (Fields s ++ [f]) (Imports s).
Definition set_Imports (x : list string) (s : t) : t :=
  mk (Name s) (PackageName s) (Fields s) x.
End StructInfo.

(** [SupportedTypes] maps Go types to their pflags method names. *)
Definition SupportedTypes : gmap string string :=
  list_to_map
    [ ("string", "StringVar");
      ("int", "IntVar");
      ("int32", "Int32Var");
      ("int64", "Int64Var");
      ("uint", "UintVar");
      ("uint32", "Uint32Var");
      ("uint64", "Uint64Var");
      ("bool", "BoolVar");
      ("float32", "Float32Var");
      ("float64", "Float64Var");
      ("[]string", "StringSliceVar");
      ("[]int", "IntSliceVar");
      ("time.Duration", "DurationVar") ].

(** [GetFlagMethod] returns the pflags method of a type and whether the
    type is in the table. *)
Definition GetFlagMethod (fieldType : string) : string * bool :=
  match SupportedTypes !! fieldType with
  | Some method => (method, true)
  | None => ("", false)
  end.

(** [HasShortFlag] *)
Definition HasShortFlag (fieldType : string) : bool :=
  bool_decide (fieldType ∈ ["string"; "int"; "bool"]).

End types.

(** ** The fragment of [go/ast] the parser walks *)

Module ast.

(** a [*ast.CommentGroup] is [None] (nil) or the [Text] of each comment
    of its [List], comment markers included *)
Definition CommentGroup := option (list string).

#[local] Unset Elimination Schemes.
Inductive Expr :=
| Ident (Name : string)
| SelectorExpr (X : Expr) (Sel : string)
| ArrayType (Len : option Expr) (Elt : Expr)
| StarExpr (X : Expr)
| MapType (Key Val : Expr)
| ChanType (Val : Expr)
| ParenExpr (X : Expr)
| IndexExpr (X Index : Expr)
| FuncType
| InterfaceType
| StructType (Fields : list Field)
| OtherExpr (dynamicType : string)   (* a node of any other type *)
with Field :=
| mkField (Doc : CommentGroup) (Names : list string) (Type_ : Expr)
          (Tag : option string) (Comment : CommentGroup).
#[local] Set Elimination Schemes.

Definition Doc (f : Field) : CommentGroup := let 'mkField d _ _ _ _ := f in d.
Definition Names (f : Field) : list string := let 'mkField _ n _ _ _ := f in n.
Definition Type_ (f : Field) : Expr := let 'mkField _ _ t _ _ := f in t.
Definition Tag (f : Field) : option string := let 'mkField _ _ _ t _ := f in t.
Definition Comment (f : Field) : CommentGroup := let 'mkField _ _ _ _ c := f in c.

(** what the verb [%T] prints for an expression *)
Definition go_type (e : Expr) : string :=
  match e with
  | Ident _ => "*ast.Ident"
  | SelectorExpr _ _ => "*ast.SelectorExpr"
  | ArrayType _ _ => "*ast.ArrayType"
  | StarExpr _ => "*ast.StarExpr"
  | MapType _ _ => "*ast.MapType"
  | ChanType _ => "*ast.ChanType"
  | ParenExpr _ => "*ast.ParenExpr"
  | IndexExpr _ _ => "*ast.IndexExpr"
  | FuncType => "*ast.FuncType"
  | InterfaceType => "*ast.InterfaceType"
  | StructType _ => "*ast.StructType"
  | OtherExpr dynamicType => dynamicType
  end.

Inductive Token := IMPORT | CONST | TYPE | VAR.

#[global] Instance Token_eq_dec : EqDecision Token.
Proof. solve_decision. Defined.

Inductive Spec :=
| ImportSpec
| ValueSpec
| TypeSpec (Doc : CommentGroup) (Name : string) (Type_ : Expr).

Inductive Decl :=
| BadDecl
| FuncDecl
| GenDecl (Doc : CommentGroup) (Tok : Token) (Specs : list Spec).

Record File := mkFile {
  Name : string;          (* the package name, [src.Name.Name] *)
  Decls : list Decl
}.

(** [ast.IsExported(name)]: the first rune of [name] is an upper-case
    letter; of no rune (the empty name) it is not. *)
Definition IsExported (U : unicode.tables) (name : string) : bool :=
  match name with
  | EmptyString => false
  | String c _ =>
      if char.is_ascii c then char.upper c else unicode.IsUpperHead U name
  end.

End ast.

(** ** Package [parser]

A Go function that returns [(T, error)] returns a pair here, its second
component [None] for the nil error and [Some msg] for an error whose
message is [msg]; [fmt.Errorf] with [%w] builds the message from the
message it wraps. *)

Module parser.

Import types.
Abbreviation error := (option string) (only parsing).

(** the annotation that selects a struct *)
Definition annotation : string := "+flags-gen".

(** [json:] followed by a quoted text, the text captured *)
Definition json_re : regexp.Regexp :=
  [ regexp.Lit ("json:" +:+ String char.dquote EmptyString);
    regexp.Group [regexp.Star char.not_quote];
    regexp.Lit (String char.dquote EmptyString) ].

(** [default:] followed by a quoted text, the text captured *)
Definition default_re : regexp.Regexp :=
  [ regexp.Lit ("default:" +:+ String char.dquote EmptyString);
    regexp.Group [regexp.Star char.not_quote];
    regexp.Lit (String char.dquote EmptyString) ].

(** [([A-Z]+)([A-Z][a-z])] *)
Definition re1 : regexp.Regexp :=
  [ regexp.Group [regexp.Plus char.upper];
    regexp.Group [regexp.One char.upper; regexp.One char.lower] ].

(** [([a-z])([A-Z])] *)
Definition re2 : regexp.Regexp :=
  [ regexp.Group [regexp.One char.lower];
    regexp.Group [regexp.One char.upper] ].

(** [hasAnnotation] checks if the comment group contains the annotation. *)
Definition hasAnnotation (commentGroup : ast.CommentGroup) : bool :=
  match commentGroup with
  | None => false
  | Some comments =>
      existsb (fun text => strings.Contains text annotation) comments
  end.

(** [parseType] converts an expression representing a type to a string. *)
Fixpoint parseType (expr : ast.Expr) : string * error :=
  match expr with
  | ast.Ident name => (name, None)
  | ast.SelectorExpr x sel =>
      match parseType x with
      | (_, Some err) => ("", Some err)
      | (pkg, None) => (pkg +:+ "." +:+ sel, None)
      end
  | ast.ArrayType _ elt =>
      match parseType elt with
      | (_, Some err) => ("", Some err)
      | (elemType, None) => ("[]" +:+ elemType, None)
      end
  | _ => ("", Some ("unsupported type: " +:+ ast.go_type expr))
  end.

(** [extractJSONTag] extracts the json tag value from a struct tag. *)
Definition extractJSONTag (tag : string) : string :=
  match regexp.FindStringSubmatch json_re tag with
  | _ :: m1 :: _ =>
      match strings.Split m1 "," with
      | p0 :: _ => if negb (String.eqb p0 "") then p0 else ""
      | [] => ""
      end
  | _ => ""
  end.

(** [parseDefaultValue] converts a default given as a string to a value
    of the type of the field. *)
Definition parseDefaultValue (value fieldType : string) : Value :=
  if String.eqb fieldType "string" then Str value
  else if bool_decide (fieldType ∈ ["int"; "int32"; "int64"]) then
    match strconv.Atoi value with
    | Some i => Int i
    | None => Str value
    end
  else if String.eqb fieldType "bool" then
    match strconv.ParseBool value with
    | Some b => Bool b
    | None => Str value
    end
  else if String.eqb fieldType "[]string" then
    if negb (String.eqb value "") then Strs (strings.Split value ",")
    else Strs []
  else if String.eqb fieldType "time.Duration" then Str value
  else Str value.

(** [extractDefaultFromTag] extracts the default value from a struct tag. *)
Definition extractDefaultFromTag (tag fieldType : string) : Value :=
  match regexp.FindStringSubmatch default_re tag with
  | _ :: defaultStr :: _ => parseDefaultValue defaultStr fieldType
  | _ => Nil
  end.

(** [getZeroValue] returns the zero value of a type, as code. *)
Definition getZeroValue (fieldType : string) : string :=
  if String.eqb fieldType "string" then fmt.quoted ""
  else if bool_decide (fieldType ∈
            ["int"; "int32"; "int64"; "uint"; "uint32"; "uint64";
             "float32"; "float64"]) then "0"
  else if String.eqb fieldType "bool" then "false"
  else if bool_decide (fieldType ∈ ["[]string"; "[]int"]) then fieldType +:+ "{}"
  else if String.eqb fieldType "time.Duration" then "0"
  else fmt.quoted "".

(** [formatDefaultValueCode] formats a default value for code generation. *)
Definition formatDefaultValueCode (value : Value) (fieldType : string) : string :=
  match value with
  | Nil => getZeroValue fieldType
  | _ =>
      if String.eqb fieldType "string" then fmt.quoted (fmt.verb_s value)
      else if String.eqb fieldType "[]string" then
        match value with
        | Strs slice =>
            "[]string{" +:+ strings.Join (List.map fmt.quoted slice) ", " +:+ "}"
        | _ => "[]string{}"
        end
      else if String.eqb fieldType "time.Duration" then
        match value with
        | Str str => strings.TrimSuffix str "s" +:+ "*time.Second"
        | _ => "0"
        end
      else fmt.verb_v value
  end.

(** the text of one comment of a doc block, its markers and the space
    around it removed *)
Definition doc_text (c : string) : string :=
  strings.TrimSpace
    (strings.TrimSuffix (strings.TrimPrefix (strings.TrimPrefix c "//") "/*") "*/").

(** [parseFieldComment] extracts the description from the comments of a
    field: the doc block first, the inline comment when that gives
    nothing. *)
Definition parseFieldComment (comment doc : ast.CommentGroup) : string :=
  let description :=
    match doc with
    | None => ""
    | Some comments =>
        foldl (fun description c =>
                 let text := doc_text c in
                 if strings.HasPrefix text "+" then description
                 else if String.eqb description "" then text
                 else description +:+ " " +:+ text)
              "" comments
    end in
  match comment with
  | Some (c :: _) =>
      if String.eqb description ""
      then strings.TrimSpace (strings.TrimPrefix c "//")
      else description
  | _ => description
  end.

(** What [go/parser] makes of the file: its syntax tree, or an error. *)
Inductive Source :=
| Parsed (src : ast.File)
| SyntaxError (err : string).

Section WithTables.
Variable U : unicode.tables.

(** [toKebabCase] converts camelCase to kebab-case. *)
Definition toKebabCase (s : string) : string :=
  let result := regexp.ReplaceAllString re1 s "${1}-${2}" in
  let result := regexp.ReplaceAllString re2 result "${1}-${2}" in
  strings.ToLower U result.

(** [deriveFlagName] creates a flag name from the field name and the
    json tag. *)
Definition deriveFlagName (fieldName jsonTag : string) : string :=
  if negb (String.eqb jsonTag "") then toKebabCase jsonTag
  else toKebabCase fieldName.

(** [parseField] extracts information from a single struct field. *)
Definition parseField (name : string) (field : ast.Field) : FieldInfo.t * error :=
  let fieldInfo := FieldInfo.named name in
  match parseType (ast.Type_ field) with
  | (_, Some err) =>
      (fieldInfo,
       Some ("failed to parse type for field " +:+ name +:+ ": " +:+ err))
  | (fieldType, None) =>
      let fieldInfo := FieldInfo.set_Type fieldType fieldInfo in
      let fieldInfo :=
        match ast.Tag field with
        | Some value =>
            let tag := strings.Trim value "`" in
            let fieldInfo := FieldInfo.set_JSONTag (extractJSONTag tag) fieldInfo in
            let fieldInfo :=
              FieldInfo.set_FlagName
                (deriveFlagName name (FieldInfo.JSONTag fieldInfo)) fieldInfo in
            FieldInfo.set_DefaultValue (extractDefaultFromTag tag fieldType) fieldInfo
        | None => FieldInfo.set_FlagName (deriveFlagName name "") fieldInfo
        end in
      let fieldInfo :=
        FieldInfo.set_Description
          (parseFieldComment (ast.Comment field) (ast.Doc field)) fieldInfo in
      (fieldInfo, None)
  end.

(** The body of the loop of [parseStruct] over the names of one field:
    the state is the struct built so far and the map of imports. *)
Fixpoint parseNames (field : ast.Field) (names : list string)
    (structInfo : StructInfo.t) (imports : gmap string bool)
    : StructInfo.t * gmap string bool * error :=
  match names with
  | [] => (structInfo, imports, None)
  | fieldName :: names' =>
      if negb (ast.IsExported U fieldName)
      then parseNames field names' structInfo imports
      else
        match parseField fieldName field with
        | (_, Some err) =>
            (structInfo, imports,
             Some ("failed to parse field " +:+ fieldName +:+ ": " +:+ err))
        | (fieldInfo, None) =>
            let imports :=
              if String.eqb (FieldInfo.Type_ fieldInfo) "time.Duration"
              then <["time" := true]> imports else imports in
            let fieldInfo :=
              match GetFlagMethod (FieldInfo.Type_ fieldInfo) with
              | (method, true) =>
                  FieldInfo.set_DefaultValueCode
                    (formatDefaultValueCode (FieldInfo.DefaultValue fieldInfo)
                                            (FieldInfo.Type_ fieldInfo))
                    (FieldInfo.set_FlagMethod method fieldInfo)
              | (_, false) => fieldInfo
              end in
            parseNames field names' (StructInfo.append_Fields fieldInfo structInfo) imports
        end
  end.

(** The loop of [parseStruct] over the fields. *)
Fixpoint parseFields (fields : list ast.Field)
    (structInfo : StructInfo.t) (imports : gmap string bool)
    : StructInfo.t * gmap string bool * error :=
  match fields with
  | [] => (structInfo, imports, None)
  | field :: fields' =>
      (* skip embedded fields or fields without names *)
      if bool_decide (length (ast.Names field) = 0)
      then parseFields fields' structInfo imports
      else
        match parseNames field (ast.Names field) structInfo imports with
        | (structInfo, imports, Some err) => (structInfo, imports, Some err)
        | (structInfo, imports, None) => parseFields fields' structInfo imports
        end
  end.

(** [parseStruct] parses a struct and extracts the information of its
    fields; [fields] is [structType.Fields.List]. *)
Definition parseStruct (name : string) (fields : list ast.Field)
    (packageName : string) : StructInfo.t * error :=
  let structInfo := StructInfo.mk name packageName [] [] in
  match parseFields fields structInfo ∅ with
  | (structInfo, _, Some err) => (structInfo, Some err)
  | (structInfo, imports, None) =>
      (StructInfo.set_Imports (map_to_list imports).*1 structInfo, None)
  end.

(** The loop of [ParseFile] over the specs of one declaration, whose doc
    block is [doc]. *)
Fixpoint parseSpecs (doc : ast.CommentGroup) (packageName : string)
    (specs : list ast.Spec) (structs : list StructInfo.t)
    : list StructInfo.t * error :=
  match specs with
  | [] => (structs, None)
  | ast.TypeSpec _ name (ast.StructType fields) :: specs' =>
      if hasAnnotation doc then
        match parseStruct name fields packageName with
        | (_, Some err) =>
            ([], Some ("failed to parse struct " +:+ name +:+ ": " +:+ err))
        | (structInfo, None) =>
            parseSpecs doc packageName specs' (structs ++ [structInfo])
        end
      else parseSpecs doc packageName specs' structs
  | _ :: specs' => parseSpecs doc packageName specs' structs
  end.

(** The loop of [ParseFile] over the declarations of the file. *)
Fixpoint parseDecls (packageName : string) (decls : list ast.Decl)
    (structs : list StructInfo.t) : list StructInfo.t * error :=
  match decls with
  | [] => (structs, None)
  | ast.GenDecl doc ast.TYPE specs :: decls' =>
      match parseSpecs doc packageName specs structs with
      | (_, Some err) => ([], Some err)
      | (structs, None) => parseDecls packageName decls' structs
      end
  | _ :: decls' => parseDecls packageName decls' structs
  end.

(** [ParseFile] parses a Go source file and returns the structs marked
    with the annotation. *)
Definition ParseFile (filename : string) (source : Source)
    : list StructInfo.t * error :=
  match source with
  | SyntaxError err =>
      ([], Some ("failed to parse file " +:+ filename +:+ ": " +:+ err))
  | Parsed src => parseDecls (ast.Name src) (ast.Decls src) []
  end.

End WithTables.

End parser.

(** ** The command, [cmd/flags-gen/main.go] *)

Module main.

(** The step of [runFlagsGen] that parses the input file: the structs to
    generate flags for, or the error the command returns. *)
Definition runFlagsGen_parse (U : unicode.tables) (inputFile : string)
    (source : parser.Source) : list types.StructInfo.t + string :=
  match parser.ParseFile U inputFile source with
  | (_, Some err) => inr ("failed to parse input file: " +:+ err)
  | (structs, None) =>
      if bool_decide (length structs = 0)
      then inr ("no structs with +flags-gen annotation found in " +:+ inputFile)
      else inl structs
  end.

End main.

(** ** Test data, [pkg/parser/parser_test.go] *)

Module testdata.

(** a struct tag as the source writes it: entries [key:value], the value
    between double quotes, the whole between back quotes *)
Definition tag (entries : list (string * string)) : option string :=
  Some ("`" +:+ strings.Join ((fun kv => kv.1 +:+ ":" +:+ fmt.quoted kv.2) <$> entries) " "
        +:+ "`").

(** the entry [key:value] of a tag and the space after it *)
Definition entry (key value : string) : string :=
  key +:+ ":" +:+ fmt.quoted value +:+ " ".

Definition Host : ast.Field :=
  ast.mkField (Some ["// Host is the server hostname"]) ["Host"]
    (ast.Ident "string") (tag [("json", "host"); ("default", "localhost")]) None.

Definition Port : ast.Field :=
  ast.mkField (Some ["// Port is the server port"]) ["Port"]
    (ast.Ident "int") (tag [("json", "port"); ("default", "8080")]) None.

Definition Debug : ast.Field :=
  ast.mkField (Some ["// Enable debug mode"]) ["Debug"]
    (ast.Ident "bool") (tag [("json", "debug")]) None.

Definition Tags : ast.Field :=
  ast.mkField (Some ["// Tags for filtering"]) ["Tags"]
    (ast.ArrayType None (ast.Ident "string"))
    (tag [("json", "tags"); ("default", "web,api")]) None.

Definition secret : ast.Field :=
  ast.mkField (Some ["// unexported field should be ignored"]) ["secret"]
    (ast.Ident "string") (tag [("json", "secret")]) None.

Definition ServerConfig : list ast.Field := [Host; Port; Debug; Tags; secret].

Definition IgnoredConfig : list ast.Field :=
  [ ast.mkField None ["Value"] (ast.Ident "string") (tag [("json", "value")]) None ].

Definition testContent : ast.File :=
  ast.mkFile "main"
    [ ast.GenDecl
        (Some ["// +flags-gen"; "// ServerConfig defines server configuration"])
        ast.TYPE [ast.TypeSpec None "ServerConfig" (ast.StructType ServerConfig)];
      ast.GenDecl
        (Some ["// Regular struct without annotation - should be ignored"])
        ast.TYPE [ast.TypeSpec None "IgnoredConfig" (ast.StructType IgnoredConfig)] ].

(** the file of the test without its annotated struct *)
Definition ignoredOnly : ast.File :=
  ast.mkFile "main"
    [ ast.GenDecl
        (Some ["// Regular struct without annotation - should be ignored"])
        ast.TYPE [ast.TypeSpec None "IgnoredConfig" (ast.StructType IgnoredConfig)] ].

(** Two annotated structs, the second with a field of pointer type:
    [Good struct { Host string }] and [Bad struct { Limit *int }]. *)
Definition Limit : ast.Field :=
  ast.mkField None ["Limit"] (ast.StarExpr (ast.Ident "int")) None None.

Definition Good : ast.Decl :=
  ast.GenDecl (Some ["// +flags-gen"]) ast.TYPE
    [ast.TypeSpec None "Good"
       (ast.StructType [ast.mkField None ["Host"] (ast.Ident "string") None None])].

Definition Bad : ast.Decl :=
  ast.GenDecl (Some ["// +flags-gen"]) ast.TYPE
    [ast.TypeSpec None "Bad" (ast.StructType [Limit])].

Definition withPointer : ast.File := ast.mkFile "config" [Good; Bad].

(** [RequiredCRDsGracePeriod time.Duration] of [internal/testdata/example.go] *)
Definition RequiredCRDsGracePeriod : ast.Field :=
  ast.mkField
    (Some ["// RequiredCRDsGracePeriod is the grace period for the required CRDs to be present";
           "// before starting the controller manager.";
           "// +optional"])
    ["RequiredCRDsGracePeriod"]
    (ast.SelectorExpr (ast.Ident "time") "Duration")
    (tag [("json", "requiredCRDsGracePeriod,omitempty");
          ("yaml", "requiredCRDsGracePeriod,omitempty");
          ("default", "30s")])
    None.

(** [Size uint] with the default [42] *)
Definition Size : ast.Field :=
  ast.mkField None ["Size"] (ast.Ident "uint")
    (tag [("json", "size"); ("default", "42")]) None.

(** [Width, Height, depth int] with one tag and one comment *)
Definition Box : ast.Field :=
  ast.mkField None ["Width"; "Height"; "depth"] (ast.Ident "int")
    (tag [("json", "side"); ("default", "3")]) (Some ["// the sides of the box"]).

End testdata.

(** * What the parser computes, stated on lists

The loops of [parseStruct] and [ParseFile] are compared with functions
that say what they compute: the descriptor of one exported identifier,
the fields whose type does not resolve, the structs the annotation
selects. *)

Module spec.

Import types.

(** the struct with [l] appended to its fields *)
Definition add_Fields (l : list FieldInfo.t) (s : StructInfo.t) : StructInfo.t :=
  StructInfo.mk (StructInfo.Name s) (StructInfo.PackageName s)
                (StructInfo.Fields s ++ l) (StructInfo.Imports s).

(** the descriptor of the identifier [name] of [field], flag method and
    default-value code included *)
Definition describe (U : unicode.tables) (field : ast.Field) (name : string)
    : FieldInfo.t :=
  let fieldInfo := (parser.parseField U name field).1 in
  match GetFlagMethod (FieldInfo.Type_ fieldInfo) with
  | (method, true) =>
      FieldInfo.set_DefaultValueCode
        (parser.formatDefaultValueCode (FieldInfo.DefaultValue fieldInfo)
                                       (FieldInfo.Type_ fieldInfo))
        (FieldInfo.set_FlagMethod method fieldInfo)
  | (_, false) => fieldInfo
  end.

(** The two insertions of hyphens of the kebab-case conversion, by the
    bytes next to the place of the hyphen. *)

(** [s] starts with an upper-case byte and then a lower-case byte *)
Definition upper_lower (s : string) : bool :=
  match s with
  | String b (String c _) => char.upper b && char.lower c
  | _ => false
  end.

(** [s] starts with an upper-case byte *)
Definition starts_upper (s : string) : bool :=
  match s with
  | String b _ => char.upper b
  | EmptyString => false
  end.

(** a hyphen between an upper-case byte and the upper-case byte followed
    by a lower-case byte that comes next: the end of a run of upper-case
    bytes before the word that starts with its last byte *)
Fixpoint acronym_hyphens (s : string) : string :=
  match s with
  | EmptyString => EmptyString
  | String a t =>
      String a (if char.upper a && upper_lower t
                then String "-" (acronym_hyphens t)
                else acronym_hyphens t)
  end.

(** a hyphen between a lower-case byte and the upper-case byte that
    comes next *)
Fixpoint camel_hyphens (s : string) : string :=
  match s with
  | EmptyString => EmptyString
  | String a t =>
      String a (if char.lower a && starts_upper t
                then String "-" (camel_hyphens t)
                else camel_hyphens t)
  end.

(** The match of [([A-Z]+)([A-Z][a-z])] after its first byte: the rest
    of the run of upper-case bytes, the last byte of the run and the
    lower-case byte after it, and the text that follows. *)
Fixpoint acronym_tail (s : string) : option (string * ascii * ascii * string) :=
  match s with
  | String u t =>
      if char.upper u then
        match t with
        | String l r =>
            if char.lower l then Some (EmptyString, u, l, r)
            else (fun '(m, u', l', r') => (String u m, u', l', r')) <$> acronym_tail t
        | EmptyString => None
        end
      else None
  | EmptyString => None
  end.

(** the entry of a struct tag that gives the default [raw] *)
Definition default_entry (raw : string) : string :=
  "default:" +:+ fmt.quoted raw.

(** the opening of a default entry, [default:] and a double quote *)
Definition default_open : string :=
  "default:" +:+ String char.dquote EmptyString.

(** the text [extractDefaultFromTag] reads the default from *)
Definition default_text (tag : string) : option string :=
  match regexp.FindStringSubmatch parser.default_re tag with
  | _ :: raw :: _ => Some raw
  | _ => None
  end.

(** what the identifiers of one field declaration share: the external
    name and the default value read from the tag *)
Definition shared_JSONTag (field : ast.Field) : string :=
  match ast.Tag field with
  | Some value => parser.extractJSONTag (strings.Trim value "`")
  | None => ""
  end.

Definition shared_DefaultValue (field : ast.Field) (fieldType : string) : Value :=
  match ast.Tag field with
  | Some value => parser.extractDefaultFromTag (strings.Trim value "`") fieldType
  | None => Nil
  end.

(** The tag of the field gives the default [raw]: between its back
    quotes, the first default entry is the one of [raw], a text without
    double quote. *)
Definition has_default (field : ast.Field) (raw : string) : Prop :=
  exists value before rest,
    ast.Tag field = Some value /\
    strings.Trim value "`" = before +:+ default_entry raw +:+ rest /\
    strings.Contains (before +:+ "default:") default_open = false /\
    strings.forallb char.not_quote raw = true.

(** The field has no tag, or a tag without default entry. *)
Definition no_default (field : ast.Field) : Prop :=
  match ast.Tag field with
  | None => True
  | Some value => default_text (strings.Trim value "`") = None
  end.

(** the descriptor of the identifier [name] of a field of type
    [fieldType], component by component *)
Definition descriptor (U : unicode.tables) (field : ast.Field)
    (fieldType name : string) : FieldInfo.t :=
  let supported := GetFlagMethod fieldType in
  let value := shared_DefaultValue field fieldType in
  {| FieldInfo.Name := name;
     FieldInfo.Type_ := fieldType;
     FieldInfo.JSONTag := shared_JSONTag field;
     FieldInfo.FlagName :=
       parser.toKebabCase U
         (if String.eqb (shared_JSONTag field) "" then name
          else shared_JSONTag field);
     FieldInfo.Description :=
       parser.parseFieldComment (ast.Comment field) (ast.Doc field);
     FieldInfo.DefaultValue := value;
     FieldInfo.DefaultValueCode :=
       if supported.2 then parser.formatDefaultValueCode value fieldType else "";
     FieldInfo.Required := false;
     FieldInfo.ShortFlag := "";
     FieldInfo.FlagMethod := supported.1 |}.

(** the top-level shapes [parseType] resolves *)
Definition supported_shape (expr : ast.Expr) : bool :=
  match expr with
  | ast.Ident _ | ast.SelectorExpr _ _ | ast.ArrayType _ _ => true
  | _ => false
  end.

(** the exported identifiers of a field, in the order listed *)
Definition exported (U : unicode.tables) (field : ast.Field) : list string :=
  List.filter (ast.IsExported U) (ast.Names field).

(** the descriptors a field contributes *)
Definition descriptors (U : unicode.tables) (field : ast.Field) : list FieldInfo.t :=
  describe U field <$> exported U field.

(** the exported identifier a field whose type does not resolve is
    reported under, with the error of [parseType] *)
Definition offender (field : ast.Field) (exp : list string) : option (string * string) :=
  match exp, (parser.parseType (ast.Type_ field)).2 with
  | name :: _, Some err => Some (name, err)
  | _, _ => None
  end.

(** the first field of a struct whose type does not resolve *)
Definition first_offender (U : unicode.tables) (fields : list ast.Field)
    : option (string * string) :=
  head (omap (fun f => offender f (exported U f)) fields).

(** the descriptors [parseStruct] has appended when it returns: those of
    the fields before the first whose type does not resolve *)
Fixpoint collected (U : unicode.tables) (fields : list ast.Field)
    : list FieldInfo.t :=
  match fields with
  | [] => []
  | f :: fs =>
      match offender f (exported U f) with
      | Some _ => []
      | None => descriptors U f ++ collected U fs
      end
  end.

(** the structs a declaration contributes: the specs of a type
    declaration whose doc block holds the annotation that declare a
    struct, by name and fields *)
Definition selected_specs (decl : ast.Decl) : list (string * list ast.Field) :=
  match decl with
  | ast.GenDecl doc ast.TYPE specs =>
      if parser.hasAnnotation doc then
        omap (fun spec =>
                match spec with
                | ast.TypeSpec _ name (ast.StructType fields) => Some (name, fields)
                | _ => None
                end) specs
      else []
  | _ => []
  end.

(** the structs of a file the annotation selects, in source order *)
Definition selected (src : ast.File) : list (string * list ast.Field) :=
  ast.Decls src ≫= selected_specs.

(** the message [ParseFile] fails with when [parseType] fails with [err]
    on the field [field] of the struct [struct] *)
Definition field_error (field err : string) : string :=
  "failed to parse field " +:+ field +:+ ": " +:+
  "failed to parse type for field " +:+ field +:+ ": " +:+ err.

Definition struct_error (struct : string) (e : string * string) : string :=
  "failed to parse struct " +:+ struct +:+ ": " +:+ field_error e.1 e.2.

(** the field of a selected struct whose type does not resolve, under
    the name of the struct *)
Definition struct_offender (U : unicode.tables) (sel : string * list ast.Field)
    : option (string * (string * string)) :=
  (fun e => (sel.1, e)) <$> first_offender U sel.2.

(** the first selected struct with a field whose type does not resolve,
    with that field and the error *)
Definition file_offender (U : unicode.tables) (src : ast.File)
    : option (string * (string * string)) :=
  head (omap (struct_offender U) (selected src)).

(** the descriptor of a selected struct *)
Definition build (U : unicode.tables) (packageName : string)
    (sel : string * list ast.Field) : StructInfo.t :=
  (parser.parseStruct U sel.1 sel.2 packageName).1.

(** ** What the rest of the parser computes *)

(** the expressions [parseType] resolves: an identifier, a qualified name
    of a resolved expression, a sequence of a resolved expression *)
Fixpoint resolvable (expr : ast.Expr) : bool :=
  match expr with
  | ast.Ident _ => true
  | ast.SelectorExpr x _ => resolvable x
  | ast.ArrayType _ elt => resolvable elt
  | _ => false
  end.

(** the normalized type of a resolved expression *)
Fixpoint type_name (expr : ast.Expr) : string :=
  match expr with
  | ast.Ident name => name
  | ast.SelectorExpr x sel => type_name x +:+ "." +:+ sel
  | ast.ArrayType _ elt => "[]" +:+ type_name elt
  | _ => EmptyString
  end.

(** the expression [parseType] stops at: the first one, going down the
    qualified names and the sequences, that is neither *)
Fixpoint culprit (expr : ast.Expr) : ast.Expr :=
  match expr with
  | ast.SelectorExpr x _ => culprit x
  | ast.ArrayType _ elt => culprit elt
  | _ => expr
  end.

(** one of the descriptors is of type [time.Duration] *)
Definition has_duration (l : list FieldInfo.t) : bool :=
  existsb (fun d => String.eqb (FieldInfo.Type_ d) "time.Duration") l.

(** the longest head of [s] in the class, and what follows it *)
Fixpoint span (cls : ascii -> bool) (s : string) : string * string :=
  match s with
  | String c s' =>
      if cls c then let '(m, r) := span cls s' in (String c m, r)
      else (EmptyString, s)
  | EmptyString => (EmptyString, EmptyString)
  end.

(** the pattern of an entry of a struct tag: the key, a double quote, a
    text without double quote, captured, and a double quote *)
Definition entry_re (key : string) : regexp.Regexp :=
  [ regexp.Lit (key +:+ String char.dquote EmptyString);
    regexp.Group [regexp.Star char.not_quote];
    regexp.Lit (String char.dquote EmptyString) ].

(** the entry of [key] at the head of [s]: its text, up to the next double
    quote, and what follows that quote *)
Definition entry_here (key s : string) : option (string * string) :=
  let opening := key +:+ String char.dquote EmptyString in
  if String.prefix opening s then
    let '(raw, tail) := span char.not_quote (strings.drop (String.length opening) s) in
    match tail with
    | String _ after => Some (raw, after)
    | EmptyString => None
    end
  else None.

(** the text of the first entry of [key] in [s] *)
Fixpoint first_entry (key s : string) : option string :=
  match entry_here key s with
  | Some (raw, _) => Some raw
  | None =>
      match s with
      | String _ s' => first_entry key s'
      | EmptyString => None
      end
  end.

(** [s] without its hyphens *)
Fixpoint without_hyphens (s : string) : string :=
  match s with
  | EmptyString => EmptyString
  | String c s' =>
      if Ascii.eqb c "-" then without_hyphens s' else String c (without_hyphens s')
  end.

(** the texts of the comments of a doc block that are no annotation *)
Definition doc_lines (comments : list string) : list string :=
  List.filter (fun text => negb (strings.HasPrefix text "+"))
              (parser.doc_text <$> comments).

(** a list of texts without the empty texts it starts with *)
Fixpoint drop_empty (l : list string) : list string :=
  match l with
  | t :: l' => if String.eqb t "" then drop_empty l' else l
  | [] => []
  end.

(** the text of the inline comment of a field: its first comment *)
Definition inline_text (comment : ast.CommentGroup) : string :=
  match comment with
  | Some (c :: _) => strings.TrimSpace (strings.TrimPrefix c "//")
  | _ => ""
  end.

(** the opening of a json entry, [json:] and a double quote *)
Definition json_open : string :=
  "json:" +:+ String char.dquote EmptyString.

(** the entry of a struct tag that gives the external name [ext], with
    the options [options] after it *)
Definition json_entry (ext options : string) : string :=
  "json:" +:+ fmt.quoted (ext +:+ options).

(** The tag of the field holds the external name [ext]: between its back
    quotes, the first json entry is the one of [ext], a text without comma
    and without double quote, alone or followed by a comma and options. *)
Definition has_json_entry (field : ast.Field) (ext options : string) : Prop :=
  exists value before rest,
    ast.Tag field = Some value /\
    strings.Trim value "`" = before +:+ json_entry ext options +:+ rest /\
    strings.Contains (before +:+ "json:") json_open = false /\
    strings.forallb (fun c => char.not_quote c && negb (Ascii.eqb c ",")) ext = true /\
    strings.forallb char.not_quote options = true /\
    (options = "" \/ exists o, options = String "," o).

(** The field has no tag, or a tag that does not hold [json:] and a double
    quote. *)
Definition no_json_entry (field : ast.Field) : Prop :=
  match ast.Tag field with
  | None => True
  | Some value => strings.Contains (strings.Trim value "`") json_open = false
  end.

(** the types of the table of [SupportedTypes] *)
Definition supported_types : list string :=
  [ "string"; "int"; "int32"; "int64"; "uint"; "uint32"; "uint64"; "bool";
    "float32"; "float64"; "[]string"; "[]int"; "time.Duration" ].

End spec.

(** * Verification *)

(** ** The loops of the parser *)

Section parser_correct.

Import types.
Context (U : unicode.tables).

Lemma add_Fields_nil s : spec.add_Fields [] s = s.
Proof. destruct s; unfold spec.add_Fields; simpl. by rewrite app_nil_r. Qed.

Lemma add_Fields_append f l s :
  spec.add_Fields l (StructInfo.append_Fields f s) = spec.add_Fields (f :: l) s.
Proof.
  unfold spec.add_Fields, StructInfo.append_Fields; simpl.
  by rewrite <- app_assoc.
Qed.

Lemma add_Fields_add l1 l2 s :
  spec.add_Fields l2 (spec.add_Fields l1 s) = spec.add_Fields (l1 ++ l2) s.
Proof. unfold spec.add_Fields; simpl. by rewrite <- app_assoc. Qed.

(** [parseField] fails exactly when [parseType] does. *)
Lemma parseField_failed name field x err :
  parser.parseType (ast.Type_ field) = (x, Some err) ->
  parser.parseField U name field =
    (FieldInfo.named name,
     Some ("failed to parse type for field " +:+ name +:+ ": " +:+ err)).
Proof. intros H. unfold parser.parseField. by rewrite H. Qed.

Lemma parseField_resolved name field ty :
  parser.parseType (ast.Type_ field) = (ty, None) ->
  exists fieldInfo,
    parser.parseField U name field = (fieldInfo, None) /\
    FieldInfo.Name fieldInfo = name /\
    FieldInfo.Type_ fieldInfo = ty.
Proof.
  intros H. unfold parser.parseField. rewrite H.
  eexists; split; [reflexivity|].
  by destruct (ast.Tag field).
Qed.

(** The inner loop: nothing is appended when the type of the field does
    not resolve and some identifier is exported, and the descriptors of
    the exported identifiers are appended otherwise. *)
Lemma parseNames_spec field names structInfo imports :
  exists imports',
    parser.parseNames U field names structInfo imports =
    match spec.offender field (List.filter (ast.IsExported U) names) with
    | Some e => (structInfo, imports', Some (spec.field_error e.1 e.2))
    | None =>
        (spec.add_Fields
           (spec.describe U field <$> List.filter (ast.IsExported U) names)
           structInfo,
         imports', None)
    end.
Proof.
  unfold spec.offender.
  destruct (parser.parseType (ast.Type_ field)) as [ty [err|]] eqn:Hty; simpl.
  - induction names as [|n names IH]; simpl.
    + eexists. by rewrite add_Fields_nil.
    + destruct (ast.IsExported U n) eqn:Hn; simpl; [|done].
      rewrite (parseField_failed _ _ _ _ Hty). by eexists.
  - assert (forall l : list string,
              match l with _ :: _ | _ => @None (string * string) end = None)
      as Hnone by (by intros []).
    setoid_rewrite Hnone.
    revert structInfo imports.
    induction names as [|n names IH]; intros structInfo imports; simpl.
    + eexists. by rewrite add_Fields_nil.
    + destruct (ast.IsExported U n) eqn:Hn; simpl; [|apply IH].
      unfold spec.describe.
      destruct (parseField_resolved n field ty Hty) as (fi & -> & _ & _); simpl.
      match goal with
      | |- context [parser.parseNames U field names ?s ?i] =>
          destruct (IH s i) as [imports' ->]
      end.
      exists imports'. by rewrite add_Fields_append.
Qed.

Lemma collected_all fields :
  spec.first_offender U fields = None ->
  spec.collected U fields = fields ≫= spec.descriptors U.
Proof.
  unfold spec.first_offender.
  induction fields as [|f fs IH]; simpl; [done|].
  destruct (spec.offender f (spec.exported U f)); simpl; [done|].
  intros H. by rewrite IH.
Qed.

(** The outer loop stops at the first field whose type does not resolve. *)
Lemma parseFields_spec fields structInfo imports :
  exists imports',
    parser.parseFields U fields structInfo imports =
    (spec.add_Fields (spec.collected U fields) structInfo, imports',
     (fun e => spec.field_error e.1 e.2) <$> spec.first_offender U fields).
Proof.
  unfold spec.first_offender.
  revert structInfo imports.
  induction fields as [|f fs IH]; intros structInfo imports; simpl.
  - eexists. by rewrite add_Fields_nil.
  - case_bool_decide as Hlen.
    + apply nil_length_inv in Hlen.
      unfold spec.exported, spec.descriptors, spec.exported.
      rewrite Hlen; simpl. apply IH.
    + destruct (parseNames_spec f (ast.Names f) structInfo imports)
        as [imports1 ->].
      fold (spec.exported U f).
      destruct (spec.offender f (spec.exported U f)) as [e|]; simpl.
      * exists imports1. by rewrite add_Fields_nil.
      * fold (spec.descriptors U f).
        destruct (IH (spec.add_Fields (spec.descriptors U f) structInfo) imports1)
          as [imports2 ->].
        exists imports2. by rewrite add_Fields_add.
Qed.

(** [parseStruct]: the descriptors of every exported identifier, or the
    error of the first field whose type does not resolve. *)
Lemma parseStruct_spec name fields packageName :
  exists imports,
    parser.parseStruct U name fields packageName =
    match spec.first_offender U fields with
    | Some e =>
        (StructInfo.mk name packageName (spec.collected U fields) [],
         Some (spec.field_error e.1 e.2))
    | None =>
        (StructInfo.mk name packageName (fields ≫= spec.descriptors U) imports,
         None)
    end.
Proof.
  unfold parser.parseStruct.
  destruct (parseFields_spec fields (StructInfo.mk name packageName [] []) ∅)
    as [imports ->].
  destruct (spec.first_offender U fields) as [e|] eqn:He; simpl.
  - by exists [].
  - eexists. unfold StructInfo.set_Imports, spec.add_Fields; simpl.
    by rewrite collected_all.
Qed.

Lemma parseStruct_offender name fields packageName :
  (parser.parseStruct U name fields packageName).2 =
  (fun e => spec.field_error e.1 e.2) <$> spec.first_offender U fields.
Proof.
  destruct (parseStruct_spec name fields packageName) as [imports ->].
  by destruct (spec.first_offender U fields).
Qed.

(** The loop over the specs of one type declaration. *)
Lemma parseSpecs_spec doc packageName specs structs :
  let sel := spec.selected_specs (ast.GenDecl doc ast.TYPE specs) in
  parser.parseSpecs U doc packageName specs structs =
  match head (omap (spec.struct_offender U) sel) with
  | Some o => ([], Some (spec.struct_error o.1 o.2))
  | None => (structs ++ (spec.build U packageName <$> sel), None)
  end.
Proof.
  simpl. destruct (parser.hasAnnotation doc) eqn:Hdoc; simpl.
  - revert structs.
    induction specs as [|sp specs IH]; intros structs; simpl.
    + by rewrite app_nil_r.
    + destruct sp as [| |tsdoc name ty]; try apply IH.
      destruct ty; try apply IH.
      rewrite Hdoc. unfold spec.struct_offender at 1; simpl.
      pose proof (parseStruct_offender name Fields packageName) as Hoff.
      destruct (parser.parseStruct U name Fields packageName) as [info err] eqn:Hps.
      simpl in Hoff. subst err.
      destruct (spec.first_offender U Fields) as [e|]; simpl; [done|].
      rewrite IH. unfold spec.build at 2; simpl. rewrite Hps; simpl.
      destruct (head _); [done|]. by rewrite <- app_assoc.
  - revert structs.
    induction specs as [|sp specs IH]; intros structs; simpl.
    + by rewrite app_nil_r.
    + destruct sp as [| |tsdoc name ty]; try apply IH.
      destruct ty; try apply IH. rewrite Hdoc. apply IH.
Qed.

(** The loop over the declarations of the file. *)
Lemma parseDecls_spec packageName decls structs :
  let sel := decls ≫= spec.selected_specs in
  parser.parseDecls U packageName decls structs =
  match head (omap (spec.struct_offender U) sel) with
  | Some o => ([], Some (spec.struct_error o.1 o.2))
  | None => (structs ++ (spec.build U packageName <$> sel), None)
  end.
Proof.
  intros sel; subst sel. revert structs.
  induction decls as [|d decls IH]; intros structs.
  - simpl. by rewrite app_nil_r.
  - destruct d as [| |doc [] specs]; try (simpl; apply IH).
    rewrite bind_cons, omap_app, fmap_app.
    cbn [parser.parseDecls]. rewrite parseSpecs_spec. cbv zeta.
    set (sel := spec.selected_specs _).
    destruct (omap (spec.struct_offender U) sel) as [|o os]; simpl; [|done].
    rewrite IH. destruct (head _); [done|].
    by rewrite app_assoc.
Qed.

(** [ParseFile] on a file that [go/parser] accepts: the descriptors of the
    selected structs in source order, or the error of the first selected
    struct that has a field whose type does not resolve, and then no
    descriptor. *)
Lemma ParseFile_spec filename src :
  parser.ParseFile U filename (parser.Parsed src) =
  match spec.file_offender U src with
  | Some o => ([], Some (spec.struct_error o.1 o.2))
  | None => (spec.build U (ast.Name src) <$> spec.selected src, None)
  end.
Proof. unfold parser.ParseFile. by rewrite parseDecls_spec. Qed.

(** *** The descriptor of one identifier *)

Lemma describe_Name field name :
  FieldInfo.Name (spec.describe U field name) = name.
Proof.
  unfold spec.describe, parser.parseField.
  destruct (parser.parseType (ast.Type_ field)) as [ty [err|]]; simpl.
  - by destruct (GetFlagMethod _) as [m []].
  - destruct (ast.Tag field); simpl; by destruct (GetFlagMethod _) as [m []].
Qed.

Lemma describe_resolved field fieldType name :
  parser.parseType (ast.Type_ field) = (fieldType, None) ->
  spec.describe U field name = spec.descriptor U field fieldType name.
Proof.
  intros Hty.
  unfold spec.describe, spec.descriptor, parser.parseField,
    spec.shared_JSONTag, spec.shared_DefaultValue, parser.deriveFlagName.
  rewrite Hty.
  assert (GetFlagMethod fieldType = ("", false) \/
          exists m, GetFlagMethod fieldType = (m, true)) as [Hm|[m Hm]].
  { unfold GetFlagMethod. destruct (SupportedTypes !! fieldType); eauto. }
  - destruct (ast.Tag field) as [v|]; simpl; rewrite Hm; simpl; try done.
    by destruct (String.eqb _ "").
  - destruct (ast.Tag field) as [v|]; simpl; rewrite Hm; simpl; try done.
    by destruct (String.eqb _ "").
Qed.

(** *** The errors of [parseType] *)

Lemma parseType_unsupported expr :
  spec.supported_shape expr = false ->
  parser.parseType expr = ("", Some ("unsupported type: " +:+ ast.go_type expr)).
Proof. by destruct expr. Qed.

(** An error of [parseType] is the unsupported-type error of the
    expression itself or of one it is built from, and comes with the
    empty string. *)
Lemma parseType_error expr :
  forall x err,
    parser.parseType expr = (x, Some err) ->
    x = "" /\
    exists inner,
      spec.supported_shape inner = false /\
      err = "unsupported type: " +:+ ast.go_type inner.
Proof.
  revert expr. fix IH 1. intros expr x err.
  destruct (spec.supported_shape expr) eqn:Hshape.
  - destruct expr as [n|X sel|len elt| | | | | | | | |]; try done; simpl.
    + destruct (parser.parseType X) as [pkg [e|]] eqn:HX; [|done].
      intros [= <- <-]. split; [done|]. by apply (IH X pkg e).
    + destruct (parser.parseType elt) as [el [e|]] eqn:Helt; [|done].
      intros [= <- <-]. split; [done|]. by apply (IH elt el e).
  - rewrite parseType_unsupported by done.
    intros [= <- <-]. split; [done|]. by exists expr.
Qed.

(** *** Membership in the selected structs and in the offenders *)

Lemma elem_of_selected src name fields :
  (name, fields) ∈ spec.selected src <->
  exists doc specs tsdoc,
    ast.GenDecl doc ast.TYPE specs ∈ ast.Decls src /\
    ast.TypeSpec tsdoc name (ast.StructType fields) ∈ specs /\
    parser.hasAnnotation doc = true.
Proof.
  unfold spec.selected. rewrite list_elem_of_bind. split.
  - intros (d & Hin & Hd).
    destruct d as [| |doc [] specs]; simpl in Hin; try by apply elem_of_nil in Hin.
    destruct (parser.hasAnnotation doc) eqn:Hdoc; [|by apply elem_of_nil in Hin].
    apply list_elem_of_omap in Hin as (sp & Hsp & Heq).
    destruct sp as [| |tsdoc n ty]; try done.
    destruct ty; try done. injection Heq as -> ->.
    by exists doc, specs, tsdoc.
  - intros (doc & specs & tsdoc & Hd & Hsp & Hdoc).
    exists (ast.GenDecl doc ast.TYPE specs). split; [|done].
    simpl. rewrite Hdoc. apply list_elem_of_omap.
    by exists (ast.TypeSpec tsdoc name (ast.StructType fields)).
Qed.

Lemma head_omap_Some {A B} (g : A -> option B) (l : list A) y :
  head (omap g l) = Some y -> exists x, x ∈ l /\ g x = Some y.
Proof.
  intros H. apply head_Some_elem_of in H.
  by apply list_elem_of_omap in H.
Qed.

Lemma head_omap_None {A B} (g : A -> option B) (l : list A) :
  head (omap g l) = None <-> forall x, x ∈ l -> g x = None.
Proof.
  induction l as [|a l IH]; simpl.
  - split; [|done]. intros _ x Hx. by apply elem_of_nil in Hx.
  - destruct (g a) eqn:Ha; simpl.
    + split; [done|]. intros H. specialize (H a (list_elem_of_here _ _)). congruence.
    + rewrite IH. split.
      * intros H x [->|Hx]%elem_of_cons; auto.
      * intros H x Hx. apply H. by right.
Qed.

(** The field a struct is reported for is an exported identifier of one of
    its fields, and the error is the error of [parseType] on its type. *)
Lemma first_offender_Some fields name err :
  spec.first_offender U fields = Some (name, err) ->
  exists f,
    f ∈ fields /\ name ∈ ast.Names f /\ ast.IsExported U name = true /\
    (parser.parseType (ast.Type_ f)).2 = Some err.
Proof.
  intros (f & Hf & Hoff)%head_omap_Some. exists f. split; [done|].
  unfold spec.offender, spec.exported in Hoff.
  destruct (List.filter _ _) as [|n ns] eqn:Hexp; [done|].
  destruct (parser.parseType _).2 as [e|] eqn:He; [|done].
  injection Hoff as -> ->.
  assert (In name (List.filter (ast.IsExported U) (ast.Names f))) as Hin
    by (rewrite Hexp; by left).
  apply filter_In in Hin as [Hin Hexported].
  by rewrite list_elem_of_In.
Qed.

(** A struct with an exported identifier whose type does not resolve has
    an offender. *)
Lemma first_offender_None fields f name :
  spec.first_offender U fields = None ->
  f ∈ fields -> name ∈ ast.Names f -> ast.IsExported U name = true ->
  (parser.parseType (ast.Type_ f)).2 = None.
Proof.
  intros Hnone Hf Hname Hexp.
  unfold spec.first_offender in Hnone.
  rewrite head_omap_None in Hnone. specialize (Hnone f Hf).
  unfold spec.offender, spec.exported in Hnone.
  destruct (List.filter _ _) as [|n ns] eqn:Hfilter.
  - assert (In name (List.filter (ast.IsExported U) (ast.Names f))) as Hin
      by (apply filter_In; by rewrite <- list_elem_of_In).
    by rewrite Hfilter in Hin.
  - by destruct (parser.parseType _).2.
Qed.

(** *** The descriptors of a struct *)

Lemma filter_bind {A B} (p : B -> bool) (g : A -> list B) (l : list A) :
  List.filter p (l ≫= g) = l ≫= (fun x => List.filter p (g x)).
Proof.
  induction l as [|a l IH]; [done|].
  rewrite !bind_cons, List.filter_app. by rewrite IH.
Qed.

Lemma descriptors_Name field :
  FieldInfo.Name <$> spec.descriptors U field = spec.exported U field.
Proof.
  unfold spec.descriptors. rewrite <- list_fmap_compose.
  rewrite <- (list_fmap_id (spec.exported U field)) at 2.
  apply list_fmap_ext. intros _ n _. apply describe_Name.
Qed.

Lemma descriptors_bind_Name fields :
  FieldInfo.Name <$> (fields ≫= spec.descriptors U) =
  List.filter (ast.IsExported U) (fields ≫= ast.Names).
Proof.
  rewrite filter_bind.
  induction fields as [|f fs IH]; [done|].
  rewrite !bind_cons, fmap_app, IH. by rewrite descriptors_Name.
Qed.

Lemma collected_prefix fields :
  spec.collected U fields `prefix_of` fields ≫= spec.descriptors U.
Proof.
  induction fields as [|f fs IH]; [done|].
  rewrite bind_cons. cbn [spec.collected].
  destruct (spec.offender f (spec.exported U f)).
  - apply prefix_nil.
  - by apply prefix_app.
Qed.

Lemma elem_of_descriptors fields d :
  d ∈ fields ≫= spec.descriptors U ->
  exists f name,
    f ∈ fields /\ name ∈ ast.Names f /\ ast.IsExported U name = true /\
    d = spec.describe U f name.
Proof.
  intros (f & Hd & Hf)%list_elem_of_bind.
  apply list_elem_of_fmap in Hd as (name & -> & Hname).
  unfold spec.exported in Hname.
  rewrite list_elem_of_In, filter_In in Hname. destruct Hname as [Hname Hexp].
  exists f, name. split_and!; try done. by apply list_elem_of_In.
Qed.

(** The fields [parseStruct] returns are, on every outcome, a prefix of
    the descriptors of the exported identifiers. *)
Lemma parseStruct_Fields_prefix name fields packageName :
  StructInfo.Fields (parser.parseStruct U name fields packageName).1
    `prefix_of` fields ≫= spec.descriptors U.
Proof.
  destruct (parseStruct_spec name fields packageName) as [imports ->].
  destruct (spec.first_offender U fields); simpl; [|done].
  apply collected_prefix.
Qed.

Lemma build_Name packageName sel :
  StructInfo.Name (spec.build U packageName sel) = sel.1.
Proof.
  unfold spec.build.
  destruct (parseStruct_spec sel.1 sel.2 packageName) as [imports ->].
  by destruct (spec.first_offender U sel.2).
Qed.

Lemma build_Names packageName sels :
  StructInfo.Name <$> (spec.build U packageName <$> sels) = sels.*1.
Proof.
  rewrite <- list_fmap_compose. apply list_fmap_ext.
  intros _ sel _. apply build_Name.
Qed.

(** ** The patterns of the kebab-case conversion *)

Lemma string_ind2 (P : string -> Prop) :
  P EmptyString ->
  (forall a, P (String a EmptyString)) ->
  (forall a b t, P t -> P (String b t) -> P (String a (String b t))) ->
  forall s, P s.
Proof.
  intros H0 H1 H2.
  assert (forall s, P s /\ forall a, P (String a s)) as H.
  { induction s as [|b t [IH1 IH2]]; split; auto. }
  intros s. apply H.
Qed.

Lemma upper_not_lower c : char.upper c = true -> char.lower c = false.
Proof.
  unfold char.upper, char.lower, char.between.
  rewrite !andb_true_iff, andb_false_iff, !Nat.leb_le, !Nat.leb_gt.
  change (char.code "Z") with 90. change (char.code "a") with 97. lia.
Qed.

Lemma lower_not_upper c : char.lower c = true -> char.upper c = false.
Proof.
  intros H. destruct (char.upper c) eqn:Hu; [|done].
  apply upper_not_lower in Hu. congruence.
Qed.

(** A match of [re2]: a lower-case byte, then an upper-case byte. *)
Lemma match_here_re2 s :
  regexp.match_here parser.re2 s =
  match s with
  | String a (String b t) =>
      if char.lower a && char.upper b
      then Some ([String a (String b EmptyString);
                  String a EmptyString; String b EmptyString], t)
      else None
  | _ => None
  end.
Proof.
  destruct s as [|a [|b t]]; unfold regexp.match_here; simpl; try done.
  - by destruct (char.lower a).
  - by destruct (char.lower a), (char.upper b).
Qed.

Lemma replace_from_here re repl c s :
  regexp.replace_from re repl (String c s) 0 =
  match regexp.match_here re (String c s) with
  | Some (caps, _) =>
      match String.length (hd EmptyString caps) with
      | S n => regexp.expand repl caps +:+ regexp.replace_from re repl s n
      | O => String c (regexp.replace_from re repl s 0)
      end
  | None => String c (regexp.replace_from re repl s 0)
  end.
Proof. done. Qed.

Lemma replace_from_skip re repl skipped s :
  regexp.replace_from re repl (skipped +:+ s) (String.length skipped) =
  regexp.replace_from re repl s 0.
Proof. induction skipped as [|c skipped IH]; simpl; [by destruct s|done]. Qed.

Lemma replace_from_re2 s :
  regexp.replace_from parser.re2 "${1}-${2}" s 0 = spec.camel_hyphens s.
Proof.
  induction s as [|a|a b t IHt IHbt] using string_ind2.
  - done.
  - rewrite replace_from_here, match_here_re2. simpl.
    by rewrite andb_false_r.
  - rewrite replace_from_here, match_here_re2.
    destruct (char.lower a && char.upper b) eqn:Hab.
    + apply andb_true_iff in Hab as [Ha Hb].
      cbn [hd String.length].
      change (regexp.replace_from parser.re2 "${1}-${2}" (String b t) 1)
        with (regexp.replace_from parser.re2 "${1}-${2}" t 0).
      rewrite IHt.
      cbn [spec.camel_hyphens spec.starts_upper]. rewrite Ha, Hb.
      rewrite (upper_not_lower b Hb). simpl. done.
    + rewrite IHbt. cbn [spec.camel_hyphens spec.starts_upper].
      by rewrite Hab.
Qed.

Lemma many_ext {A} cls s (k1 k2 : string -> string -> option A) :
  (forall m r, k1 m r = k2 m r) ->
  regexp.many cls s k1 = regexp.many cls s k2.
Proof.
  revert k1 k2. induction s as [|c s IH]; intros k1 k2 Hk; simpl; [done|].
  destruct (cls c); [|done].
  rewrite (IH _ (fun m r => k2 (String c m) r)) by (intros; apply Hk).
  by rewrite Hk.
Qed.

(** The greedy run of upper-case bytes gives back its last byte when, and
    only when, a lower-case byte follows the run. *)
Lemma many_upper_pair {A} (g : string -> ascii -> ascii -> string -> A) s :
  regexp.many char.upper s
    (fun m r =>
       match r with
       | String u (String l r') =>
           if char.upper u && char.lower l then Some (g m u l r') else None
       | _ => None
       end) =
  (fun '(m, u, l, r') => g m u l r') <$> spec.acronym_tail s.
Proof.
  revert g. induction s as [|u t IH]; intros g; [done|].
  cbn [regexp.many spec.acronym_tail].
  destruct (char.upper u) eqn:Hu; simpl.
  - rewrite (IH (fun m => g (String u m))).
    destruct t as [|l r]; [done|].
    destruct (char.lower l) eqn:Hl.
    + simpl. by rewrite (lower_not_upper l Hl).
    + destruct (spec.acronym_tail (String l r)) as [[[[m u'] l'] r']|]; done.
  - destruct t as [|l r]; done.
Qed.

Lemma append_nil_r s : s +:+ EmptyString = s.
Proof. induction s; simpl; congruence. Qed.

Lemma append_assoc s1 s2 s3 : (s1 +:+ s2) +:+ s3 = s1 +:+ s2 +:+ s3.
Proof. induction s1; simpl; congruence. Qed.

Lemma length_append s1 s2 :
  String.length (s1 +:+ s2) = String.length s1 + String.length s2.
Proof. induction s1; simpl; congruence. Qed.

(** A match of [re1]: a run of at least two upper-case bytes and the
    lower-case byte after it; the first group is the run without its last
    byte, the second that byte and the lower-case byte. *)
Lemma match_here_re1 s :
  regexp.match_here parser.re1 s =
  match s with
  | String c s' =>
      if char.upper c then
        (fun '(m, u, l, r) =>
           ([String c (m +:+ String u (String l EmptyString));
             String c m; String u (String l EmptyString)], r))
          <$> spec.acronym_tail s'
      else None
  | EmptyString => None
  end.
Proof.
  destruct s as [|c s']; [done|].
  unfold regexp.match_here. cbn [parser.re1 regexp.pieces regexp.atoms].
  destruct (char.upper c); [|done].
  rewrite <- many_upper_pair. apply many_ext. intros m r.
  rewrite append_nil_r.
  destruct r as [|u [|l r']]; try done.
  - by destruct (char.upper u).
  - by destruct (char.upper u), (char.lower l).
Qed.

Lemma acronym_tail_Some s m u l r :
  spec.acronym_tail s = Some (m, u, l, r) ->
  s = m +:+ String u (String l r) /\
  strings.forallb char.upper m = true /\
  char.upper u = true /\ char.lower l = true.
Proof.
  revert m. induction s as [|a t IH]; intros m; [done|].
  cbn [spec.acronym_tail]. destruct (char.upper a) eqn:Ha; [|done].
  destruct t as [|b t']; [done|].
  destruct (char.lower b) eqn:Hb.
  - by intros [= <- <- <- <-].
  - destruct (spec.acronym_tail (String b t')) as [[[[m' u'] l'] r']|]; [|done].
    intros [= <- <- <- <-].
    destruct (IH m' eq_refl) as (-> & Hm & Hu & Hl).
    simpl. by rewrite Ha, Hm.
Qed.

Lemma acronym_hyphens_cons a t :
  spec.acronym_hyphens (String a t) =
  String a (if char.upper a && spec.upper_lower t
            then String "-" (spec.acronym_hyphens t)
            else spec.acronym_hyphens t).
Proof. done. Qed.

(** The hyphen of [acronym_hyphens] in a run of upper-case bytes that a
    lower-case byte follows is before the last byte of the run. *)
Lemma acronym_hyphens_run c m u l r :
  char.upper c = true -> strings.forallb char.upper m = true ->
  char.upper u = true -> char.lower l = true ->
  spec.acronym_hyphens (String c (m +:+ String u (String l r))) =
  String c (m +:+ String "-" (String u (String l (spec.acronym_hyphens r)))).
Proof.
  intros Hc Hm Hu Hl. revert c Hc.
  induction m as [|x m IH]; intros c Hc.
  - assert (spec.upper_lower (String u (String l r)) = true) as H1
      by (simpl; by rewrite Hu, Hl).
    assert (spec.upper_lower (String l r) = false) as H2
      by (destruct r; simpl; by rewrite ?(lower_not_upper l Hl)).
    cbn [String.append spec.acronym_hyphens].
    by rewrite H1, H2, Hc, (lower_not_upper l Hl), andb_false_r.
  - simpl in Hm. apply andb_true_iff in Hm as [Hx Hm].
    cbn [String.append]. rewrite <- (IH Hm x Hx).
    assert (spec.upper_lower (String x (m +:+ String u (String l r))) = false) as Hno.
    { destruct m as [|y m']; simpl.
      - by rewrite (upper_not_lower u Hu), andb_false_r.
      - simpl in Hm. apply andb_true_iff in Hm as [Hy _].
        by rewrite (upper_not_lower y Hy), andb_false_r. }
    rewrite (acronym_hyphens_cons c). by rewrite Hno, andb_false_r.
Qed.

Lemma acronym_tail_None c s :
  char.upper c = true -> spec.acronym_tail s = None -> spec.upper_lower s = false.
Proof.
  intros Hc. destruct s as [|b [|d t]]; try done.
  cbn [spec.acronym_tail spec.upper_lower].
  destruct (char.upper b); [|done].
  by destruct (char.lower d).
Qed.

Lemma expand_groups whole g1 g2 :
  regexp.expand "${1}-${2}" [whole; g1; g2] = g1 +:+ String "-" g2.
Proof.
  change (regexp.expand "${1}-${2}" [whole; g1; g2])
    with (g1 +:+ String "-" (g2 +:+ EmptyString)).
  by rewrite append_nil_r.
Qed.

Lemma replace_from_re1 s :
  regexp.replace_from parser.re1 "${1}-${2}" s 0 = spec.acronym_hyphens s.
Proof.
  remember (String.length s) as n eqn:Hn.
  revert s Hn. induction n as [n IH] using lt_wf_ind. intros s Hn.
  destruct s as [|c s']; [done|].
  rewrite replace_from_here, match_here_re1.
  destruct (char.upper c) eqn:Hc.
  - destruct (spec.acronym_tail s') as [[[[m u] l] r]|] eqn:Htail.
    + destruct (acronym_tail_Some _ _ _ _ _ Htail) as (-> & Hm & Hu & Hl).
      rewrite acronym_hyphens_run by done.
      set (w := m +:+ String u (String l EmptyString)).
      assert (m +:+ String u (String l r) = w +:+ r) as ->
        by (subst w; by rewrite append_assoc).
      cbn [fmap option_fmap option_map hd String.length].
      rewrite expand_groups, replace_from_skip.
      rewrite (IH (String.length r)); [| |done].
      * simpl. by rewrite append_assoc.
      * subst n w. simpl. rewrite !length_append. simpl. lia.
    + cbn [fmap option_fmap option_map].
      rewrite (IH (String.length s')); [| subst n; simpl; lia | done].
      rewrite acronym_hyphens_cons.
      by rewrite (acronym_tail_None c s' Hc Htail), andb_false_r.
  - rewrite (IH (String.length s')); [| subst n; simpl; lia | done].
    by rewrite acronym_hyphens_cons, Hc.
Qed.

(** The kebab-case conversion of the parser inserts the two kinds of
    hyphens and lower-cases the result. *)
Lemma toKebabCase_spec s :
  parser.toKebabCase U s =
  strings.ToLower U (spec.camel_hyphens (spec.acronym_hyphens s)).
Proof.
  unfold parser.toKebabCase, regexp.ReplaceAllString.
  by rewrite replace_from_re1, replace_from_re2.
Qed.

Lemma acronym_hyphens_ascii s :
  strings.forallb char.is_ascii (spec.acronym_hyphens s) =
  strings.forallb char.is_ascii s.
Proof.
  induction s as [|a t IH]; [done|].
  rewrite acronym_hyphens_cons.
  destruct (char.upper a && spec.upper_lower t); simpl; by rewrite IH.
Qed.

Lemma camel_hyphens_ascii s :
  strings.forallb char.is_ascii (spec.camel_hyphens s) =
  strings.forallb char.is_ascii s.
Proof.
  induction s as [|a t IH]; [done|].
  cbn [spec.camel_hyphens].
  destruct (char.lower a && spec.starts_upper t); simpl; by rewrite IH.
Qed.

Lemma to_lower_not_upper c :
  char.is_ascii c = true -> char.upper (char.to_lower c) = false.
Proof.
  intros _. unfold char.to_lower.
  destruct (char.upper c) eqn:Hc; [|done].
  destruct c as [[] [] [] [] [] [] [] []]; done.
Qed.

(** On a name of ASCII bytes, the conversion leaves no upper-case byte. *)
Lemma map_to_lower_no_upper s :
  strings.forallb char.is_ascii s = true ->
  strings.forallb (fun c => negb (char.upper c)) (strings.map char.to_lower s) = true.
Proof.
  induction s as [|c s IH]; simpl; [done|].
  intros [Hc Hs]%andb_true_iff.
  by rewrite (to_lower_not_upper c Hc), IH.
Qed.

(** ** Default values: [strings.Split] and [strconv.Atoi] *)

Lemma Split_nonempty s sep : strings.Split s sep <> [].
Proof.
  destruct s as [|c s]; simpl; [done|].
  destruct (Ascii.eqb c sep); [done|]. by destruct (strings.Split s sep).
Qed.

(** Joining the pieces with the separator gives the string back. *)
Lemma Split_Join s sep :
  strings.Join (strings.Split s sep) (String sep EmptyString) = s.
Proof.
  unfold strings.Join. induction s as [|c s IH]; simpl; [done|].
  pose proof (Split_nonempty s sep) as Hne.
  destruct (Ascii.eqb_spec c sep) as [->|Hc].
  - destruct (strings.Split s sep) as [|p ps]; [done|].
    simpl in *. by rewrite IH.
  - destruct (strings.Split s sep) as [|p ps]; [done|].
    destruct ps as [|q ps]; simpl in *; by rewrite IH.
Qed.

(** No piece holds the separator. *)
Lemma Split_pieces s sep :
  Forall (fun p => strings.forallb (fun c => negb (Ascii.eqb c sep)) p = true)
         (strings.Split s sep).
Proof.
  induction s as [|c s IH]; simpl.
  - by repeat constructor.
  - destruct (Ascii.eqb c sep) eqn:Hc.
    + by constructor.
    + destruct (strings.Split s sep) as [|p ps].
      * repeat constructor. simpl. by rewrite Hc.
      * inversion IH as [|? ? Hp Hps]; subst.
        constructor; [|done]. simpl. by rewrite Hc, Hp.
Qed.

(** The digits of a decimal number, read by [strconv.digits]. *)
Lemma digits_of_uint_acc d p :
  strconv.digits (NilEmpty.string_of_uint d) (Z.pos p) =
  Some (Z.pos (Pos.of_uint_acc d p)).
Proof.
  revert p. induction d; intros p;
    cbn [NilEmpty.string_of_uint strconv.digits Pos.of_uint_acc];
    [done|..];
    match goal with
    | |- context [char.digit ?c] =>
        change (char.digit c) with true; cbn iota;
        let v := eval vm_compute in (char.digit_value c) in
        change (char.digit_value c) with v
    end;
    match goal with
    | |- strconv.digits _ ?z = Some (Z.pos (Pos.of_uint_acc _ ?q)) =>
        replace z with (Z.pos q) by lia
    end; apply IHd.
Qed.

Lemma digits_of_uint d :
  strconv.digits (NilEmpty.string_of_uint d) 0%Z = Some (Z.of_N (Pos.of_uint d)).
Proof.
  induction d; cbn [NilEmpty.string_of_uint strconv.digits Pos.of_uint];
    [done|..];
    match goal with
    | |- context [char.digit ?c] =>
        change (char.digit c) with true; cbn iota;
        let v := eval vm_compute in (char.digit_value c) in
        change (char.digit_value c) with v
    end;
    first [ exact IHd | apply digits_of_uint_acc ].
Qed.

Lemma digits_of_pos p :
  strconv.digits (NilEmpty.string_of_uint (Pos.to_uint p)) 0%Z = Some (Z.pos p).
Proof. by rewrite digits_of_uint, DecimalPos.Unsigned.of_to. Qed.

Lemma string_of_uint_digit d :
  d <> Decimal.Nil ->
  NilZero.string_of_uint d = NilEmpty.string_of_uint d /\
  exists c t, NilEmpty.string_of_uint d = String c t /\ char.digit c = true.
Proof. destruct d; try done; intros _; (split; [done|]); simpl; eauto. Qed.

Lemma Atoi_unsigned c t :
  char.digit c = true ->
  strconv.Atoi (String c t) =
  n ← strconv.digits (String c t) 0%Z; if strconv.in_range n then Some n else None.
Proof.
  intros Hc. unfold strconv.Atoi.
  assert (c <> "-"%char /\ c <> "+"%char) as [Hm Hp]
    by (split; intros ->; discriminate Hc).
  destruct c as [[] [] [] [] [] [] [] []]; try done.
Qed.

Lemma Atoi_negative c t :
  char.digit c = true ->
  strconv.Atoi (String "-" (String c t)) =
  n ← strconv.digits (String c t) 0%Z;
  if strconv.in_range (- n) then Some (- n)%Z else None.
Proof. done. Qed.

(** [strconv.Atoi] reads the decimal text of every [int] back. *)
Lemma Atoi_Itoa z :
  strconv.in_range z = true -> strconv.Atoi (strconv.Itoa z) = Some z.
Proof.
  intros Hz. destruct z as [|p|p].
  - done.
  - unfold strconv.Itoa. cbn [Z.to_int NilZero.string_of_int].
    destruct (string_of_uint_digit _ (DecimalPos.Unsigned.to_uint_nonnil p))
      as (-> & c & t & Hs & Hc).
    pose proof (digits_of_pos p) as Hd. rewrite Hs in *.
    rewrite (Atoi_unsigned c t Hc), Hd. simpl. by rewrite Hz.
  - unfold strconv.Itoa. cbn [Z.to_int NilZero.string_of_int].
    destruct (string_of_uint_digit _ (DecimalPos.Unsigned.to_uint_nonnil p))
      as (-> & c & t & Hs & Hc).
    pose proof (digits_of_pos p) as Hd. rewrite Hs in *.
    rewrite (Atoi_negative c t Hc), Hd. simpl.
    change (Z.neg p) with (- Z.pos p)%Z in Hz. by rewrite Hz.
Qed.

(** ** The default entry of a struct tag *)

Lemma prefix_append p t : String.prefix p (p +:+ t) = true.
Proof.
  induction p as [|c p IH]; simpl; [by destruct t|].
  by destruct (ascii_dec c c).
Qed.

Lemma prefix_extend p x y :
  String.length p <= String.length x ->
  String.prefix p (x +:+ y) = String.prefix p x.
Proof.
  revert x. induction p as [|c p IH]; intros x Hlen; simpl.
  - by destruct x, y.
  - destruct x as [|a x]; simpl in *; [lia|].
    destruct (ascii_dec c a); [|done]. apply IH. lia.
Qed.

Lemma drop_append p t : strings.drop (String.length p) (p +:+ t) = t.
Proof. induction p as [|c p IH]; simpl; [by destruct t|done]. Qed.

(** The greedy run stops at the first byte out of the class when the
    continuation accepts what follows. *)
Lemma many_stop {A} cls m c r (k : string -> string -> option A) x :
  strings.forallb cls m = true -> cls c = false ->
  k m (String c r) = Some x ->
  regexp.many cls (m +:+ String c r) k = Some x.
Proof.
  revert k. induction m as [|a m IH]; intros k Hm Hc Hk; simpl.
  - by rewrite Hc.
  - simpl in Hm. apply andb_true_iff in Hm as [Ha Hm].
    rewrite Ha. by rewrite (IH (fun m r => k (String a m) r)).
Qed.

Lemma default_entry_open raw rest :
  spec.default_entry raw +:+ rest =
  spec.default_open +:+ raw +:+ String char.dquote rest.
Proof.
  unfold spec.default_entry, fmt.quoted, spec.default_open. simpl.
  by rewrite append_assoc.
Qed.

Lemma match_here_default raw rest :
  strings.forallb char.not_quote raw = true ->
  regexp.match_here parser.default_re (spec.default_entry raw +:+ rest) =
  Some ([spec.default_entry raw; raw], rest).
Proof.
  intros Hraw. rewrite default_entry_open.
  unfold regexp.match_here, parser.default_re.
  cbn [regexp.pieces]. fold spec.default_open.
  rewrite prefix_append, drop_append.
  cbn [regexp.atoms].
  apply many_stop; [done|done|].
  cbn [regexp.atoms regexp.pieces String.prefix].
  destruct (ascii_dec char.dquote char.dquote); [|done].
  assert (String.prefix EmptyString rest = true) as -> by (by destruct rest).
  simpl strings.drop. cbn [regexp.pieces].
  rewrite !append_nil_r.
  unfold spec.default_entry, fmt.quoted. done.
Qed.

Lemma match_here_no_open s :
  String.prefix spec.default_open s = false ->
  regexp.match_here parser.default_re s = None.
Proof.
  intros H. unfold regexp.match_here, parser.default_re.
  cbn [regexp.pieces]. fold spec.default_open. by rewrite H.
Qed.

Lemma FindStringSubmatch_hit re s caps r :
  regexp.match_here re s = Some (caps, r) ->
  regexp.FindStringSubmatch re s = caps.
Proof. intros H. destruct s; simpl; by rewrite H. Qed.

Lemma FindStringSubmatch_miss re a s :
  regexp.match_here re (String a s) = None ->
  regexp.FindStringSubmatch re (String a s) = regexp.FindStringSubmatch re s.
Proof. intros H. simpl. by rewrite H. Qed.

(** The default of a tag is the text of its first default entry: the
    entry is the first when its opening does not occur earlier. *)
Lemma default_text_entry before raw rest :
  strings.Contains (before +:+ "default:") spec.default_open = false ->
  strings.forallb char.not_quote raw = true ->
  spec.default_text (before +:+ spec.default_entry raw +:+ rest) = Some raw.
Proof.
  intros Hbefore Hraw. unfold spec.default_text.
  induction before as [|a before IH].
  - change (EmptyString +:+ spec.default_entry raw +:+ rest)
      with (spec.default_entry raw +:+ rest).
    by rewrite (FindStringSubmatch_hit _ _ _ _ (match_here_default raw rest Hraw)).
  - cbn [String.append strings.Contains] in Hbefore.
    apply orb_false_iff in Hbefore as [Hhere Hbefore].
    change (String a before +:+ spec.default_entry raw +:+ rest)
      with (String a (before +:+ spec.default_entry raw +:+ rest)).
    rewrite FindStringSubmatch_miss; [by apply IH|].
    apply match_here_no_open.
    rewrite <- Hhere.
    change (String a (before +:+ spec.default_entry raw +:+ rest))
      with (String a before +:+ spec.default_entry raw +:+ rest).
    rewrite default_entry_open.
    change (spec.default_open +:+ raw +:+ String char.dquote rest)
      with ("default:" +:+ String char.dquote (raw +:+ String char.dquote rest)).
    rewrite <- append_assoc.
    change (String a (before +:+ "default:"))
      with (String a before +:+ "default:").
    apply prefix_extend. rewrite length_append. simpl. lia.
Qed.

Lemma shared_DefaultValue_default field raw fieldType :
  spec.has_default field raw ->
  spec.shared_DefaultValue field fieldType = parser.parseDefaultValue raw fieldType.
Proof.
  intros (value & before & rest & Htag & Htrim & Hfirst & Hraw).
  unfold spec.shared_DefaultValue, parser.extractDefaultFromTag.
  rewrite Htag, Htrim.
  pose proof (default_text_entry before raw rest Hfirst Hraw) as Htext.
  unfold spec.default_text in Htext.
  destruct (regexp.FindStringSubmatch _ _) as [|whole [|raw' caps]]; try done.
  by injection Htext as ->.
Qed.

Lemma shared_DefaultValue_none field fieldType :
  spec.no_default field -> spec.shared_DefaultValue field fieldType = Nil.
Proof.
  unfold spec.no_default, spec.shared_DefaultValue, parser.extractDefaultFromTag,
    spec.default_text.
  destruct (ast.Tag field) as [value|]; [|done].
  by destruct (regexp.FindStringSubmatch _ _) as [|whole [|raw' caps]].
Qed.

(** ** The claims on the walk over structs and fields *)

(** C4. For every annotated struct, the field list of the descriptor
    holds only exported identifiers of named fields, whatever the outcome
    of the parse (an unexported identifier and a field without names
    contribute nothing); when the struct parses successfully, the list
    holds exactly one entry per exported identifier, in source
    declaration order. *)
Theorem C4_one_descriptor_per_exported_field
    (name : string) (fields : list ast.Field) (packageName : string)
    (info : StructInfo.t) (err : option string) :
  parser.parseStruct U name fields packageName = (info, err) ->
  Forall (fun d =>
            ast.IsExported U (FieldInfo.Name d) = true /\
            exists f, f ∈ fields /\ FieldInfo.Name d ∈ ast.Names f)
         (StructInfo.Fields info) /\
  (err = None ->
   FieldInfo.Name <$> StructInfo.Fields info =
   List.filter (ast.IsExported U) (fields ≫= ast.Names)).
Proof.
  intros Hparse. split.
  - pose proof (parseStruct_Fields_prefix name fields packageName) as [k Hk].
    rewrite Hparse in Hk; simpl in Hk.
    apply Forall_forall. intros d Hd.
    assert (d ∈ fields ≫= spec.descriptors U) as Hin
      by (rewrite Hk; apply elem_of_app; by left).
    apply elem_of_descriptors in Hin as (f & n & Hf & Hn & Hexp & ->).
    rewrite describe_Name. eauto.
  - intros ->.
    destruct (parseStruct_spec name fields packageName) as [imports Hspec].
    rewrite Hparse in Hspec.
    destruct (spec.first_offender U fields); [done|].
    injection Hspec as ->. simpl. apply descriptors_bind_Name.
Qed.

(** ** The claims on the walk over declarations *)

(** C2. When a struct selected by the annotation has an exported
    identifier on a field whose type expression is no identifier, no
    qualified name and no sequence, [ParseFile] returns no descriptor and
    an error for the whole file: the unsupported-type error of the first
    selected struct with such a field, under the names of that struct and
    of that field.  The field named is an exported identifier of a
    selected struct whose type does not resolve; it is the field of the
    hypothesis when that is the only one. *)
Theorem C2_unsupported_type_fails
    (filename : string) (src : ast.File)
    (doc : ast.CommentGroup) (specs : list ast.Spec) (tsdoc : ast.CommentGroup)
    (struct : string) (fields : list ast.Field) (field : ast.Field) (name : string) :
  ast.GenDecl doc ast.TYPE specs ∈ ast.Decls src ->
  ast.TypeSpec tsdoc struct (ast.StructType fields) ∈ specs ->
  parser.hasAnnotation doc = true ->
  field ∈ fields -> name ∈ ast.Names field -> ast.IsExported U name = true ->
  spec.supported_shape (ast.Type_ field) = false ->
  exists struct' name' inner,
    parser.ParseFile U filename (parser.Parsed src) =
      ([], Some ("failed to parse struct " +:+ struct' +:+ ": " +:+
                 "failed to parse field " +:+ name' +:+ ": " +:+
                 "failed to parse type for field " +:+ name' +:+ ": " +:+
                 "unsupported type: " +:+ ast.go_type inner)) /\
    spec.supported_shape inner = false /\
    spec.file_offender U src =
      Some (struct', (name', "unsupported type: " +:+ ast.go_type inner)) /\
    (exists fields' field',
       (struct', fields') ∈ spec.selected src /\ field' ∈ fields' /\
       name' ∈ ast.Names field' /\ ast.IsExported U name' = true /\
       (parser.parseType (ast.Type_ field')).2 =
         Some ("unsupported type: " +:+ ast.go_type inner)) /\
    ((forall struct2 fields2 field2 name2,
        (struct2, fields2) ∈ spec.selected src -> field2 ∈ fields2 ->
        name2 ∈ ast.Names field2 -> ast.IsExported U name2 = true ->
        (parser.parseType (ast.Type_ field2)).2 <> None ->
        struct2 = struct /\ name2 = name /\ field2 = field) ->
     struct' = struct /\ name' = name /\
     ast.go_type inner = ast.go_type (ast.Type_ field)).
Proof.
  intros Hdecl Hspec Hdoc Hfield Hname Hexp Hshape.
  assert ((struct, fields) ∈ spec.selected src) as Hsel
    by (apply elem_of_selected; eauto 10).
  rewrite ParseFile_spec.
  destruct (spec.file_offender U src) as [[struct' [name' err]]|] eqn:Hoff.
  - unfold spec.file_offender in Hoff.
    apply head_omap_Some in Hoff as ([s fs] & Hs & Hso).
    unfold spec.struct_offender in Hso; simpl in Hso.
    destruct (spec.first_offender U fs) as [[n e]|] eqn:Hfo; [|done].
    injection Hso as -> -> ->.
    destruct (first_offender_Some _ _ _ Hfo) as (f' & Hf' & Hn' & Hexp' & Herr').
    destruct (parser.parseType (ast.Type_ f')) as [x e'] eqn:Hty'.
    simpl in Herr'; subst e'.
    destruct (parseType_error _ _ _ Hty') as (_ & inner & Hinner & ->).
    exists struct', name', inner.
    split; [done|]. split; [done|]. split; [done|]. split.
    + exists fs, f'. by rewrite Hty'.
    + intros Huniq.
      destruct (Huniq struct' fs f' name') as (-> & -> & ->);
        try done; [by rewrite Hty'|].
      split; [done|]. split; [done|].
      rewrite (parseType_unsupported _ Hshape) in Hty'.
      simpl in Hty'. by simplify_eq.
  - exfalso. unfold spec.file_offender in Hoff.
    rewrite head_omap_None in Hoff. specialize (Hoff _ Hsel).
    unfold spec.struct_offender in Hoff; simpl in Hoff.
    destruct (spec.first_offender U fields) eqn:Hfo; [done|].
    pose proof (first_offender_None _ _ _ Hfo Hfield Hname Hexp) as Hres.
    by rewrite (parseType_unsupported _ Hshape) in Hres.
Qed.

(** C3 (as amended). When [ParseFile] succeeds, its descriptors are, in
    source order, those of the struct-typed specs of the type declarations
    whose doc block (the block attached to the declaration) holds a
    comment with the substring [+flags-gen]: a name has a descriptor if
    and only if a declaration with the annotation declares a struct under
    it, so that a declaration without the annotation yields none whatever
    its shape and a type that is no struct yields none even when
    annotated.  When [ParseFile] fails, no declaration has a descriptor. *)
Theorem C3_annotation_selects_structs
    (filename : string) (src : ast.File)
    (structs : list StructInfo.t) (err : option string) :
  parser.ParseFile U filename (parser.Parsed src) = (structs, err) ->
  (err <> None -> structs = []) /\
  (err = None ->
   structs = spec.build U (ast.Name src) <$> spec.selected src /\
   StructInfo.Name <$> structs = (spec.selected src).*1 /\
   forall name,
     name ∈ StructInfo.Name <$> structs <->
     exists doc specs tsdoc fields,
       ast.GenDecl doc ast.TYPE specs ∈ ast.Decls src /\
       ast.TypeSpec tsdoc name (ast.StructType fields) ∈ specs /\
       parser.hasAnnotation doc = true).
Proof.
  rewrite ParseFile_spec.
  destruct (spec.file_offender U src) as [o|]; intros [= <- <-].
  - by split.
  - split; [done|]. intros _. split; [done|].
    rewrite build_Names. split; [done|].
    intros name. rewrite list_elem_of_fmap. split.
    + intros ([n fields] & -> & Hsel).
      apply elem_of_selected in Hsel as (doc & specs & tsdoc & H).
      by exists doc, specs, tsdoc, fields.
    + intros (doc & specs & tsdoc & fields & H).
      exists (name, fields). split; [done|].
      apply elem_of_selected. by exists doc, specs, tsdoc.
Qed.

(** C9. On a file that [go/parser] accepts and in which no type
    declaration with the annotation declares a struct, [ParseFile] returns
    the empty list of descriptors and no error; it is the command that
    turns the empty list into the error that no annotated struct was
    found. *)
Theorem C9_no_annotated_struct_is_no_error
    (filename : string) (src : ast.File) :
  (forall doc specs tsdoc name fields,
     ast.GenDecl doc ast.TYPE specs ∈ ast.Decls src ->
     ast.TypeSpec tsdoc name (ast.StructType fields) ∈ specs ->
     parser.hasAnnotation doc = false) ->
  parser.ParseFile U filename (parser.Parsed src) = ([], None) /\
  main.runFlagsGen_parse U filename (parser.Parsed src) =
    inr ("no structs with +flags-gen annotation found in " +:+ filename).
Proof.
  intros Hnone.
  assert (spec.selected src = []) as Hsel.
  { apply elem_of_nil_inv. intros [name fields] Hin.
    apply elem_of_selected in Hin as (doc & specs & tsdoc & Hd & Hs & Hdoc).
    by rewrite (Hnone _ _ _ _ _ Hd Hs) in Hdoc. }
  assert (parser.ParseFile U filename (parser.Parsed src) = ([], None)) as Hparse.
  { rewrite ParseFile_spec. unfold spec.file_offender. by rewrite Hsel. }
  split; [done|].
  unfold main.runFlagsGen_parse. by rewrite Hparse.
Qed.

(** ** The claims on flag names and default values *)

(** C5. The kebab-case conversion of a flag name inserts a hyphen between
    an upper-case byte of a run and the upper-case byte followed by a
    lower-case byte that ends the run, then a hyphen between every
    lower-case byte and the upper-case byte that follows it, then
    lower-cases the whole; on a name of ASCII bytes no upper-case byte is
    left.  A flag name is the conversion of the external name when there
    is one and of the field name otherwise.  The five names of the
    specification convert as it says. *)
Theorem C5_kebab_case (s fieldName jsonTag : string) :
  parser.toKebabCase U s =
    strings.ToLower U (spec.camel_hyphens (spec.acronym_hyphens s)) /\
  (if strings.forallb char.is_ascii s
   then parser.toKebabCase U s =
          strings.map char.to_lower (spec.camel_hyphens (spec.acronym_hyphens s)) /\
        strings.forallb (fun c => negb (char.upper c)) (parser.toKebabCase U s) = true
   else True) /\
  parser.deriveFlagName U fieldName jsonTag =
    parser.toKebabCase U (if String.eqb jsonTag "" then fieldName else jsonTag) /\
  parser.toKebabCase U "ProbeAddr" = "probe-addr" /\
  parser.toKebabCase U "EnableLeaderElection" = "enable-leader-election" /\
  parser.toKebabCase U "V" = "v" /\
  parser.toKebabCase U "HTTPPort" = "http-port" /\
  parser.toKebabCase U "XMLParser" = "xml-parser".
Proof.
  split; [apply toKebabCase_spec|]. split.
  - destruct (strings.forallb char.is_ascii s) eqn:Hs; [|done].
    rewrite toKebabCase_spec. unfold strings.ToLower.
    rewrite camel_hyphens_ascii, acronym_hyphens_ascii, Hs.
    split; [done|]. apply map_to_lower_no_upper.
    by rewrite camel_hyphens_ascii, acronym_hyphens_ascii.
  - split.
    + unfold parser.deriveFlagName. by destruct (String.eqb jsonTag "").
    + repeat split; vm_compute; reflexivity.
Qed.

(** C6 (as amended). A field of a signed integer kind ([int], [int32],
    [int64]) whose tag gives a default has the default read by
    [strconv.Atoi], a base-10 integer in the range of [int], and stored
    as that integer: the decimal text of every such integer is stored as
    the integer itself.  When the text is no such integer, the text is
    stored instead.  A field of an unsigned kind ([uint], [uint32],
    [uint64]) has the text stored in every case.  No error is raised in
    any of these cases. *)
Theorem C6_integer_default
    (fieldType : string) (field : ast.Field) (name raw : string) :
  fieldType ∈ ["int"; "int32"; "int64"; "uint"; "uint32"; "uint64"] ->
  parser.parseType (ast.Type_ field) = (fieldType, None) ->
  spec.has_default field raw ->
  (parser.parseField U name field).2 = None /\
  FieldInfo.DefaultValue (spec.describe U field name) =
    (if bool_decide (fieldType ∈ ["int"; "int32"; "int64"])
     then match strconv.Atoi raw with Some i => Int i | None => Str raw end
     else Str raw) /\
  (forall i, fieldType ∈ ["int"; "int32"; "int64"] ->
             strconv.in_range i = true -> raw = strconv.Itoa i ->
             FieldInfo.DefaultValue (spec.describe U field name) = Int i).
Proof.
  intros Hkind Hty Hdefault.
  destruct (parseField_resolved name field fieldType Hty) as (fi & Hfi & _).
  split; [by rewrite Hfi|].
  rewrite (describe_resolved _ _ _ Hty). cbn [spec.descriptor FieldInfo.DefaultValue].
  rewrite (shared_DefaultValue_default _ _ _ Hdefault).
  assert (parser.parseDefaultValue raw fieldType =
          if bool_decide (fieldType ∈ ["int"; "int32"; "int64"])
          then match strconv.Atoi raw with Some i => Int i | None => Str raw end
          else Str raw) as ->.
  { repeat (apply elem_of_cons in Hkind as [->|Hkind]); try done;
      by apply elem_of_nil in Hkind. }
  split; [done|].
  intros i Hsigned Hi ->. rewrite bool_decide_eq_true_2 by done.
  by rewrite Atoi_Itoa.
Qed.

(** C7. A field of type [time.Duration] whose tag gives a default has the
    text of the default stored as it is, and the code of the default is
    the text without a final [s], times [time.Second]: [30*time.Second]
    for the default [30s].  Without a default the code is [0].  The unit
    [s] is the only one that is stripped, the limitation the specification
    names: the default [5m] gives [5m*time.Second]. *)
Theorem C7_duration_default (field : ast.Field) (name : string) :
  parser.parseType (ast.Type_ field) = ("time.Duration", None) ->
  (forall raw, spec.has_default field raw ->
     FieldInfo.DefaultValue (spec.describe U field name) = Str raw /\
     FieldInfo.DefaultValueCode (spec.describe U field name) =
       strings.TrimSuffix raw "s" +:+ "*time.Second") /\
  (spec.no_default field ->
     FieldInfo.DefaultValue (spec.describe U field name) = Nil /\
     FieldInfo.DefaultValueCode (spec.describe U field name) = "0") /\
  parser.parseDefaultValue "30s" "time.Duration" = Str "30s" /\
  parser.formatDefaultValueCode (Str "30s") "time.Duration" = "30*time.Second" /\
  parser.formatDefaultValueCode (Str "5m") "time.Duration" = "5m*time.Second".
Proof.
  intros Hty. rewrite (describe_resolved _ _ _ Hty).
  cbn [spec.descriptor FieldInfo.DefaultValue FieldInfo.DefaultValueCode].
  change (GetFlagMethod "time.Duration").2 with true. cbn iota.
  split; [|split; [|done]].
  - intros raw Hdefault.
    by rewrite (shared_DefaultValue_default _ _ _ Hdefault).
  - intros Hnone. by rewrite (shared_DefaultValue_none _ _ Hnone).
Qed.

(** C8. A field of type [[]string] whose tag gives a default has the
    pieces of the text between its commas as default, in order, and the
    empty list for the empty text; the pieces joined by commas are the
    text, and no piece holds a comma.  The default [web,api] gives the
    list of [web] and [api]. *)
Theorem C8_string_list_default (field : ast.Field) (name raw : string) :
  parser.parseType (ast.Type_ field) = ("[]string", None) ->
  spec.has_default field raw ->
  FieldInfo.DefaultValue (spec.describe U field name) =
    Strs (if String.eqb raw "" then [] else strings.Split raw ",") /\
  strings.Join (strings.Split raw ",") "," = raw /\
  Forall (fun p => strings.forallb (fun c => negb (Ascii.eqb c ",")) p = true)
         (strings.Split raw ",") /\
  strings.Split raw "," <> [] /\
  parser.parseDefaultValue "web,api" "[]string" = Strs ["web"; "api"] /\
  parser.parseDefaultValue "" "[]string" = Strs [].
Proof.
  intros Hty Hdefault. rewrite (describe_resolved _ _ _ Hty).
  cbn [spec.descriptor FieldInfo.DefaultValue].
  rewrite (shared_DefaultValue_default _ _ _ Hdefault).
  split; [|split; [apply Split_Join|split; [apply Split_pieces|]]].
  - unfold parser.parseDefaultValue. simpl. by destruct (String.eqb raw "").
  - split; [apply Split_nonempty|done].
Qed.

(** C1. The struct of the test of the parser ([Host string], [Port int],
    [Debug bool], [Tags []string] and the unexported [secret string], with
    their tags) gives one struct descriptor with exactly four fields, the
    field [secret] left out; their flag names are [host], [port], [debug]
    and [tags], and their default-value codes the quoted [localhost],
    [8080], [false] and the literal of the strings [web] and [api]. *)
Theorem C1_end_to_end_scenario :
  exists info,
    parser.ParseFile U "test.go" (parser.Parsed testdata.testContent) =
      ([info], None) /\
    StructInfo.Name info = "ServerConfig" /\
    length (StructInfo.Fields info) = 4 /\
    FieldInfo.Name <$> StructInfo.Fields info = ["Host"; "Port"; "Debug"; "Tags"] /\
    FieldInfo.FlagName <$> StructInfo.Fields info = ["host"; "port"; "debug"; "tags"] /\
    FieldInfo.DefaultValueCode <$> StructInfo.Fields info =
      [ fmt.quoted "localhost"; "8080"; "false";
        "[]string{" +:+ fmt.quoted "web" +:+ ", " +:+ fmt.quoted "api" +:+ "}" ].
Proof. eexists. split; [vm_compute; reflexivity|]. repeat split. Qed.

(** * Further properties of the parser *)

(** ** [parseType] *)

Lemma parseType_closed_form expr :
  parser.parseType expr =
    (if spec.resolvable expr
     then (spec.type_name expr, None)
     else ("", Some ("unsupported type: " +:+ ast.go_type (spec.culprit expr)))).
Proof.
  revert expr. fix IH 1. intros expr.
  destruct expr as [n|X sel|len elt| | | | | | | | |]; simpl;
    try reflexivity.
  - rewrite (IH X). destruct (spec.resolvable X); reflexivity.
  - rewrite (IH elt). destruct (spec.resolvable elt); reflexivity.
Qed.

Lemma parseType_resolvable expr :
  (parser.parseType expr).2 = None <-> spec.resolvable expr = true.
Proof. rewrite parseType_closed_form. by destruct (spec.resolvable expr). Qed.

(** X1. [parseType] resolves exactly the expressions built from
    identifiers by qualified names and sequences, nested to any depth, and
    gives their normalized type, in which the length of an array is
    dropped; on every other expression it returns the empty string and the
    unsupported-type error of the first expression, going down, that is
    none of the three. *)
Theorem X1_parseType_resolves (expr : ast.Expr) :
  parser.parseType expr =
    (if spec.resolvable expr
     then (spec.type_name expr, None)
     else ("", Some ("unsupported type: " +:+ ast.go_type (spec.culprit expr)))) /\
  spec.supported_shape (spec.culprit expr) = spec.resolvable expr /\
  (forall len elt,
     parser.parseType (ast.ArrayType len elt) =
     parser.parseType (ast.ArrayType None elt)) /\
  (forall elt elemType,
     parser.parseType elt = (elemType, None) ->
     parser.parseType (ast.ArrayType None (ast.ArrayType None elt)) =
       ("[][]" +:+ elemType, None)).
Proof.
  split; [apply parseType_closed_form|]. split; [|split].
  - revert expr. fix IH 1. intros expr.
    destruct expr as [n|X sel|len elt| | | | | | | | |]; simpl;
      try reflexivity; apply IH.
  - reflexivity.
  - intros elt elemType H. simpl. by rewrite H.
Qed.

(** ** [parseStruct] *)

(** X2. [parseStruct] succeeds exactly when the type of every field that
    lists an exported identifier resolves: a field without names (an
    embedded field) or with unexported identifiers only never fails the
    parse, whatever its type.  When it fails, the struct returned holds the
    descriptors collected so far and no import. *)
Theorem X2_parseStruct_succeeds_iff
    (name : string) (fields : list ast.Field) (packageName : string) :
  ((parser.parseStruct U name fields packageName).2 = None <->
   forall f n, f ∈ fields -> n ∈ ast.Names f -> ast.IsExported U n = true ->
               spec.resolvable (ast.Type_ f) = true) /\
  ((parser.parseStruct U name fields packageName).2 <> None ->
   StructInfo.Imports (parser.parseStruct U name fields packageName).1 = [] /\
   StructInfo.Fields (parser.parseStruct U name fields packageName).1
     `prefix_of` fields ≫= spec.descriptors U).
Proof.
  split.
  - rewrite parseStruct_offender. split.
    + intros Hnone f n Hf Hn Hexp.
      destruct (spec.first_offender U fields) eqn:Hoff; [done|].
      apply parseType_resolvable. by eapply first_offender_None.
    + intros Hall.
      destruct (spec.first_offender U fields) as [[n err]|] eqn:Hoff; [|done].
      apply first_offender_Some in Hoff as (f & Hf & Hn & Hexp & Herr).
      specialize (Hall f n Hf Hn Hexp). apply parseType_resolvable in Hall.
      congruence.
  - intros Herr. split; [|apply parseStruct_Fields_prefix].
    destruct (parseStruct_spec name fields packageName) as [imports Hspec].
    rewrite Hspec in *. by destruct (spec.first_offender U fields).
Qed.

Lemma has_duration_app l1 l2 :
  spec.has_duration (l1 ++ l2) = spec.has_duration l1 || spec.has_duration l2.
Proof. apply existsb_app. Qed.

Lemma parseNames_imports field names structInfo imports :
  imports = (if spec.has_duration (StructInfo.Fields structInfo)
             then {["time" := true]} else ∅) ->
  (parser.parseNames U field names structInfo imports).1.2 =
    (if spec.has_duration
          (StructInfo.Fields (parser.parseNames U field names structInfo imports).1.1)
     then {["time" := true]} else ∅).
Proof.
  revert structInfo imports.
  induction names as [|n names IH]; intros structInfo imports Hinv; simpl; [done|].
  destruct (ast.IsExported U n); simpl; [|by apply IH].
  destruct (parser.parseField U n field) as [fieldInfo [err|]] eqn:Hfield; [done|].
  apply IH. simpl. rewrite has_duration_app. simpl. rewrite orb_false_r.
  assert (forall fi : FieldInfo.t,
            FieldInfo.Type_
              match GetFlagMethod (FieldInfo.Type_ fi) with
              | (method, true) =>
                  FieldInfo.set_DefaultValueCode
                    (parser.formatDefaultValueCode (FieldInfo.DefaultValue fi)
                       (FieldInfo.Type_ fi))
                    (FieldInfo.set_FlagMethod method fi)
              | (_, false) => fi
              end = FieldInfo.Type_ fi) as ->
    by (intros fi; by destruct (GetFlagMethod _) as [m []]).
  subst imports.
  destruct (String.eqb (FieldInfo.Type_ fieldInfo) "time.Duration");
    destruct (spec.has_duration (StructInfo.Fields structInfo)); simpl; done.
Qed.

Lemma parseFields_imports fields structInfo imports :
  imports = (if spec.has_duration (StructInfo.Fields structInfo)
             then {["time" := true]} else ∅) ->
  (parser.parseFields U fields structInfo imports).1.2 =
    (if spec.has_duration
          (StructInfo.Fields (parser.parseFields U fields structInfo imports).1.1)
     then {["time" := true]} else ∅).
Proof.
  revert structInfo imports.
  induction fields as [|f fs IH]; intros structInfo imports Hinv; simpl; [done|].
  case_bool_decide; [by apply IH|].
  pose proof (parseNames_imports f (ast.Names f) structInfo imports Hinv) as Hnames.
  destruct (parser.parseNames U f (ast.Names f) structInfo imports)
    as [[structInfo' imports'] [err|]]; simpl in *; [done|].
  by apply IH.
Qed.

(** X3. The imports of a struct that parses are the single import [time]
    when one of its descriptors is of type [time.Duration], however many
    are, and no import otherwise. *)
Theorem X3_imports_of_duration
    (name : string) (fields : list ast.Field) (packageName : string)
    (info : StructInfo.t) :
  parser.parseStruct U name fields packageName = (info, None) ->
  StructInfo.Imports info =
    (if spec.has_duration (StructInfo.Fields info) then ["time"] else []) /\
  (spec.has_duration (StructInfo.Fields info) = true <->
   exists d, d ∈ StructInfo.Fields info /\ FieldInfo.Type_ d = "time.Duration").
Proof.
  intros Hparse. split.
  - unfold parser.parseStruct in Hparse.
    pose proof (parseFields_imports fields
                  (StructInfo.mk name packageName [] []) ∅ eq_refl) as Himp.
    destruct (parser.parseFields U fields _ ∅) as [[structInfo imports] [err|]];
      [done|].
    injection Hparse as <-. simpl in *. subst imports.
    destruct (spec.has_duration (StructInfo.Fields structInfo)).
    + by rewrite map_to_list_singleton.
    + by rewrite map_to_list_empty.
  - unfold spec.has_duration. rewrite existsb_exists. split.
    + intros (d & Hd & Ht). exists d. split; [by apply list_elem_of_In|].
      by apply String.eqb_eq.
    + intros (d & Hd & Ht). exists d. split; [by apply list_elem_of_In|].
      by apply String.eqb_eq.
Qed.

(** ** The table of supported types *)

Lemma SupportedTypes_lookup fieldType method :
  SupportedTypes !! fieldType = Some method ->
  fieldType ∈ spec.supported_types /\ method <> "" /\
  forall fieldType',
    SupportedTypes !! fieldType' = Some method -> fieldType' = fieldType.
Proof.
  intros H. unfold SupportedTypes in *.
  apply elem_of_list_to_map_2 in H.
  repeat (apply elem_of_cons in H as [H|H]); try (by apply elem_of_nil in H);
    injection H as -> ->;
    (split; [by apply (bool_decide_unpack _)|]); (split; [done|]);
    intros t' H'; apply elem_of_list_to_map_2 in H';
    repeat (apply elem_of_cons in H' as [H'|H']); try (by apply elem_of_nil in H');
    by injection H' as ->.
Qed.

Lemma SupportedTypes_supported fieldType :
  fieldType ∈ spec.supported_types -> is_Some (SupportedTypes !! fieldType).
Proof.
  intros H. unfold spec.supported_types in H.
  repeat (apply elem_of_cons in H as [->|H]); try (by apply elem_of_nil in H);
    by eexists.
Qed.

(** X5. [GetFlagMethod] reports a type as supported exactly for the
    thirteen types of the table; the method it returns is empty exactly
    when the type is not supported, and two supported types never share a
    method.  Every type that [HasShortFlag] accepts is supported. *)
Theorem X5_GetFlagMethod_table (fieldType : string) :
  ((GetFlagMethod fieldType).2 = true <-> fieldType ∈ spec.supported_types) /\
  ((GetFlagMethod fieldType).1 = "" <-> (GetFlagMethod fieldType).2 = false) /\
  (forall fieldType',
     (GetFlagMethod fieldType).2 = true ->
     GetFlagMethod fieldType' = GetFlagMethod fieldType ->
     fieldType' = fieldType) /\
  (HasShortFlag fieldType = true -> (GetFlagMethod fieldType).2 = true).
Proof.
  unfold GetFlagMethod.
  destruct (SupportedTypes !! fieldType) as [m|] eqn:Hm.
  - destruct (SupportedTypes_lookup _ _ Hm) as (Hin & Hne & Hinj).
    split; [done|]. split; [done|]. split; [|done].
    intros t' _. destruct (SupportedTypes !! t') as [m'|] eqn:Hm'; [|done].
    intros [= ->]. by apply Hinj.
  - split.
    + split; [done|]. intros [m Hs]%SupportedTypes_supported. congruence.
    + split; [done|]. split; [done|].
      unfold HasShortFlag. intros Hshort%bool_decide_eq_true.
      assert (is_Some (SupportedTypes !! fieldType)) as [m Hs]; [|congruence].
      apply SupportedTypes_supported.
      repeat (apply elem_of_cons in Hshort as [->|Hshort]);
        try (by apply elem_of_nil in Hshort); by apply (bool_decide_unpack _).
Qed.

(** ** What a descriptor holds *)

Lemma parseField_unset name field :
  let fieldInfo := (parser.parseField U name field).1 in
  FieldInfo.Required fieldInfo = false /\ FieldInfo.ShortFlag fieldInfo = "" /\
  FieldInfo.FlagMethod fieldInfo = "" /\ FieldInfo.DefaultValueCode fieldInfo = "".
Proof.
  unfold parser.parseField.
  destruct (parser.parseType (ast.Type_ field)) as [ty [err|]]; [done|].
  by destruct (ast.Tag field).
Qed.

Lemma describe_method field name :
  let d := spec.describe U field name in
  FieldInfo.Required d = false /\ FieldInfo.ShortFlag d = "" /\
  match SupportedTypes !! FieldInfo.Type_ d with
  | Some method =>
      FieldInfo.FlagMethod d = method /\
      FieldInfo.DefaultValueCode d =
        parser.formatDefaultValueCode (FieldInfo.DefaultValue d) (FieldInfo.Type_ d)
  | None => FieldInfo.FlagMethod d = "" /\ FieldInfo.DefaultValueCode d = ""
  end.
Proof.
  unfold spec.describe.
  destruct (parseField_unset name field) as (Hr & Hs & Hm & Hc).
  set (fieldInfo := (parser.parseField U name field).1) in *.
  unfold GetFlagMethod.
  destruct (SupportedTypes !! FieldInfo.Type_ fieldInfo) as [m|] eqn:Hlookup;
    simpl; by rewrite Hlookup.
Qed.

Lemma elem_of_parseStruct_Fields name fields packageName d :
  d ∈ StructInfo.Fields (parser.parseStruct U name fields packageName).1 ->
  exists f n,
    f ∈ fields /\ n ∈ ast.Names f /\ ast.IsExported U n = true /\
    d = spec.describe U f n.
Proof.
  intros Hd. apply elem_of_descriptors.
  destruct (parseStruct_Fields_prefix name fields packageName) as [k ->].
  apply elem_of_app. by left.
Qed.

(** X4. In every descriptor [parseStruct] returns, the flag method and the
    default-value code are set together, and only for a type of the table
    of supported types: the method is the one of the table and is not
    empty, and the code is the one [formatDefaultValueCode] gives for the
    default value.  A field of any other type that resolves keeps its
    descriptor, with the empty method and the empty code. *)
Theorem X4_method_and_code_of_supported_types
    (name : string) (fields : list ast.Field) (packageName : string)
    (d : FieldInfo.t) :
  d ∈ StructInfo.Fields (parser.parseStruct U name fields packageName).1 ->
  (FieldInfo.FlagMethod d <> "" <-> FieldInfo.Type_ d ∈ spec.supported_types) /\
  (FieldInfo.Type_ d ∈ spec.supported_types ->
   GetFlagMethod (FieldInfo.Type_ d) = (FieldInfo.FlagMethod d, true) /\
   FieldInfo.DefaultValueCode d =
     parser.formatDefaultValueCode (FieldInfo.DefaultValue d) (FieldInfo.Type_ d)) /\
  (FieldInfo.Type_ d ∉ spec.supported_types ->
   FieldInfo.FlagMethod d = "" /\ FieldInfo.DefaultValueCode d = "").
Proof.
  intros (f & n & _ & _ & _ & ->)%elem_of_parseStruct_Fields.
  destruct (describe_method f n) as (_ & _ & Hcase).
  set (d := spec.describe U f n) in *.
  unfold GetFlagMethod.
  destruct (SupportedTypes !! FieldInfo.Type_ d) as [m|] eqn:Hlookup.
  - destruct Hcase as [Hm Hc].
    destruct (SupportedTypes_lookup _ _ Hlookup) as (Hin & Hne & _).
    split; [by rewrite Hm|]. split; [by rewrite Hm|]. done.
  - destruct Hcase as [Hm Hc].
    assert (FieldInfo.Type_ d ∉ spec.supported_types) as Hnot.
    { intros [m Hs]%SupportedTypes_supported. congruence. }
    split; [by rewrite Hm|]. split; done.
Qed.

(** X6. The parser never sets the fields [Required] and [ShortFlag] of a
    descriptor: in everything [parseStruct] returns they hold [false] and
    the empty string. *)
Theorem X6_Required_and_ShortFlag_unset
    (name : string) (fields : list ast.Field) (packageName : string) :
  Forall (fun d => FieldInfo.Required d = false /\ FieldInfo.ShortFlag d = "")
         (StructInfo.Fields (parser.parseStruct U name fields packageName).1).
Proof.
  apply Forall_forall.
  intros d (f & n & _ & _ & _ & ->)%elem_of_parseStruct_Fields.
  destruct (describe_method f n) as (Hr & Hs & _). done.
Qed.

(** ** [hasAnnotation] *)

Lemma prefix_iff p s :
  String.prefix p s = true <-> exists t, s = p +:+ t.
Proof.
  split.
  - revert s. induction p as [|c p IH]; intros s H; simpl in *.
    + by exists s.
    + destruct s as [|a s]; [done|]. simpl in H.
      destruct (ascii_dec c a) as [->|]; [|done].
      destruct (IH s H) as [t ->]. by exists t.
  - intros [t ->]. apply prefix_append.
Qed.

Lemma Contains_iff s sub :
  strings.Contains s sub = true <-> exists before after, s = before +:+ sub +:+ after.
Proof.
  split.
  - induction s as [|c s IH]; cbn [strings.Contains].
    + rewrite orb_false_r. intros [t Ht]%prefix_iff. by exists EmptyString, t.
    + intros [[t Ht]%prefix_iff|H]%orb_true_iff.
      * by exists EmptyString, t.
      * destruct (IH H) as (before & after & ->). by exists (String c before), after.
  - intros (before & after & ->).
    induction before as [|c before IH].
    + change (EmptyString +:+ sub +:+ after) with (sub +:+ after).
      destruct (sub +:+ after) eqn:Hs; cbn [strings.Contains]; rewrite <- ?Hs;
        by rewrite prefix_append.
    + change (String c before +:+ sub +:+ after)
        with (String c (before +:+ sub +:+ after)).
      cbn [strings.Contains]. by rewrite IH, orb_true_r.
Qed.

(** X7. [hasAnnotation] holds exactly when some comment of the group
    holds the text [+flags-gen] anywhere in it, alone on its line or
    inside a longer text; a missing group and a group without comments
    have no annotation. *)
Theorem X7_hasAnnotation_substring (commentGroup : ast.CommentGroup) :
  (parser.hasAnnotation commentGroup = true <->
   exists comments c before after,
     commentGroup = Some comments /\ c ∈ comments /\
     c = before +:+ "+flags-gen" +:+ after) /\
  parser.hasAnnotation None = false /\
  parser.hasAnnotation (Some []) = false.
Proof.
  split; [|done].
  destruct commentGroup as [comments|]; simpl.
  - rewrite existsb_exists. split.
    + intros (c & Hc & (before & after & ->)%Contains_iff).
      exists comments, (before +:+ "+flags-gen" +:+ after), before, after.
      split; [done|]. split; [by apply list_elem_of_In|done].
    + intros (comments' & c & before & after & [= <-] & Hc & ->).
      exists (before +:+ "+flags-gen" +:+ after).
      split; [by apply list_elem_of_In|]. apply Contains_iff. eauto.
  - split; [done|]. by intros (? & ? & ? & ? & ? & _).
Qed.

(** ** The entries of a struct tag *)

Lemma span_spec cls s :
  s = (spec.span cls s).1 +:+ (spec.span cls s).2 /\
  strings.forallb cls (spec.span cls s).1 = true /\
  match (spec.span cls s).2 with
  | String c _ => cls c = false
  | EmptyString => True
  end.
Proof.
  induction s as [|c s (IH1 & IH2 & IH3)]; simpl; [done|].
  destruct (cls c) eqn:Hc; [|done].
  destruct (spec.span cls s) as [m r]; simpl in *.
  by rewrite Hc, IH2, <- IH1.
Qed.

(** The greedy run of bytes that are no double quote ends at the next
    double quote, and fails when there is none. *)
Lemma many_not_quote {A} (g : string -> string -> A) s :
  regexp.many char.not_quote s
    (fun m r =>
       match r with
       | String c r' => if Ascii.eqb c char.dquote then Some (g m r') else None
       | EmptyString => None
       end) =
  (let '(m, tail) := spec.span char.not_quote s in
   match tail with
   | String _ r' => Some (g m r')
   | EmptyString => None
   end).
Proof.
  revert g. induction s as [|c s IH]; intros g; [done|].
  cbn [regexp.many spec.span].
  destruct (char.not_quote c) eqn:Hc.
  - rewrite (IH (fun m => g (String c m))).
    destruct (spec.span char.not_quote s) as [m [|c' r']]; [|done].
    unfold char.not_quote in Hc. by destruct (Ascii.eqb c char.dquote).
  - unfold char.not_quote in Hc. by destruct (Ascii.eqb c char.dquote).
Qed.

Lemma match_here_entry key s :
  regexp.match_here (spec.entry_re key) s =
  (fun '(raw, after) =>
     ([key +:+ String char.dquote (raw +:+ String char.dquote EmptyString); raw],
      after))
    <$> spec.entry_here key s.
Proof.
  unfold regexp.match_here, spec.entry_re, spec.entry_here.
  cbn [regexp.pieces].
  destruct (String.prefix _ s); [|done].
  cbn [regexp.atoms].
  set (s' := strings.drop _ s).
  rewrite (many_ext char.not_quote s' _
             (fun m r =>
                match r with
                | String c r' =>
                    if Ascii.eqb c char.dquote
                    then Some ([key +:+ String char.dquote
                                        (m +:+ String char.dquote EmptyString); m], r')
                    else None
                | EmptyString => None
                end)).
  - rewrite (many_not_quote
               (fun m r' =>
                  ([key +:+ String char.dquote (m +:+ String char.dquote EmptyString);
                    m], r'))).
    by destruct (spec.span char.not_quote s') as [m [|c r']].
  - intros m r. rewrite append_nil_r.
    destruct r as [|c r']; [done|]. cbn [regexp.pieces String.prefix].
    destruct (ascii_dec char.dquote c) as [<-|Hne].
    + change (Ascii.eqb char.dquote char.dquote) with true. cbn iota.
      assert (String.prefix EmptyString r' = true) as -> by (by destruct r').
      simpl strings.drop. cbn [regexp.pieces].
      rewrite append_nil_r, !append_assoc. done.
    + destruct (Ascii.eqb_spec c char.dquote); [congruence|done].
Qed.

(** What [FindStringSubmatch] makes of the pattern of an entry: the nil
    slice, or the match and the text of the first entry. *)
Lemma FindStringSubmatch_entry key s :
  regexp.FindStringSubmatch (spec.entry_re key) s =
  match regexp.FindStringSubmatch (spec.entry_re key) s with
  | [whole; raw] => [whole; raw]
  | _ => []
  end /\
  match regexp.FindStringSubmatch (spec.entry_re key) s with
  | _ :: raw :: _ => Some raw
  | _ => None
  end = spec.first_entry key s.
Proof.
  induction s as [|c s [IH1 IH2]].
  - cbn [regexp.FindStringSubmatch spec.first_entry]. rewrite match_here_entry.
    by destruct (spec.entry_here key EmptyString) as [[raw after]|].
  - cbn [regexp.FindStringSubmatch spec.first_entry]. rewrite match_here_entry.
    by destruct (spec.entry_here key (String c s)) as [[raw after]|].
Qed.

Lemma entry_here_Some key s raw after :
  spec.entry_here key s = Some (raw, after) ->
  s = key +:+ String char.dquote (raw +:+ String char.dquote after) /\
  strings.forallb char.not_quote raw = true.
Proof.
  unfold spec.entry_here.
  destruct (String.prefix _ s) eqn:Hp; [|done].
  apply prefix_iff in Hp as [t ->]. rewrite drop_append.
  destruct (span_spec char.not_quote t) as (Ht & Hraw & Htail).
  destruct (spec.span char.not_quote t) as [m [|c r]]; [done|].
  simpl in *. intros [= <- <-].
  unfold char.not_quote in Htail.
  destruct (Ascii.eqb_spec c char.dquote) as [->|]; [|done].
  split; [|done]. rewrite Ht, append_assoc. done.
Qed.

(** The text of the first entry is a text without double quote that the
    tag holds between the key with its double quote and a double quote. *)
Lemma first_entry_Some key s raw :
  spec.first_entry key s = Some raw ->
  strings.forallb char.not_quote raw = true /\
  exists before after,
    s = before +:+ key +:+ String char.dquote (raw +:+ String char.dquote after).
Proof.
  induction s as [|c s IH]; cbn [spec.first_entry].
  - destruct (spec.entry_here key EmptyString) as [[raw' after]|] eqn:He; [|done].
    intros [= ->]. apply entry_here_Some in He as [-> Hraw].
    split; [done|]. by exists EmptyString, after.
  - destruct (spec.entry_here key (String c s)) as [[raw' after]|] eqn:He.
    + intros [= ->]. apply entry_here_Some in He as [-> Hraw].
      split; [done|]. by exists EmptyString, after.
    + intros (Hraw & before & after & ->)%IH.
      split; [done|]. by exists (String c before), after.
Qed.

(** A tag that does not hold the key with its double quote has no entry. *)
Lemma first_entry_missing key s :
  strings.Contains s (key +:+ String char.dquote EmptyString) = false ->
  spec.first_entry key s = None.
Proof.
  induction s as [|c s IH]; cbn [strings.Contains spec.first_entry];
    intros [Hp Hs]%orb_false_iff; unfold spec.entry_here; rewrite Hp; auto.
Qed.

Lemma forallb_append p s1 s2 :
  strings.forallb p (s1 +:+ s2) = strings.forallb p s1 && strings.forallb p s2.
Proof. induction s1 as [|c s1 IH]; simpl; [done|]. by rewrite IH, andb_assoc. Qed.

(** The first piece of a split is the text before the first separator. *)
Lemma Split_head s sep :
  exists p ps,
    strings.Split s sep = p :: ps /\
    strings.forallb (fun c => negb (Ascii.eqb c sep)) p = true /\
    (s = p \/ exists o, s = p +:+ String sep o).
Proof.
  induction s as [|c s (p & ps & Hs & Hp & Hrest)]; simpl.
  - exists EmptyString, []. auto.
  - destruct (Ascii.eqb_spec c sep) as [->|Hc].
    + exists EmptyString, (strings.Split s sep). split; [done|]. split; [done|].
      right. by exists s.
    + rewrite Hs. exists (String c p), ps. split; [done|]. split.
      * simpl. rewrite Hp. by destruct (Ascii.eqb_spec c sep).
      * destruct Hrest as [->|[o ->]]; [by left|right; by exists o].
Qed.

Lemma parseDefaultValue_not_Nil value fieldType :
  parser.parseDefaultValue value fieldType <> Nil.
Proof.
  unfold parser.parseDefaultValue.
  repeat (case_match; try done).
Qed.

Lemma extractDefaultFromTag_text tag fieldType raw :
  spec.default_text tag = Some raw ->
  parser.extractDefaultFromTag tag fieldType = parser.parseDefaultValue raw fieldType.
Proof.
  unfold spec.default_text, parser.extractDefaultFromTag.
  destruct (regexp.FindStringSubmatch _ tag) as [|whole [|raw' caps]]; try done.
  by intros [= ->].
Qed.

(** X8. [extractDefaultFromTag] reads the default from the first entry
    [default:] of the tag, whose text runs to the next double quote: a tag
    that does not hold [default:] and a double quote gives no default
    (nil), and a default that is not nil is the value of a text without
    double quote that stands in the tag between [default:], a double quote,
    and a double quote.  An entry with the empty text is a default, not the
    absence of one. *)
Theorem X8_extractDefaultFromTag (tag fieldType : string) :
  (strings.Contains tag spec.default_open = false ->
   parser.extractDefaultFromTag tag fieldType = Nil) /\
  (parser.extractDefaultFromTag tag fieldType <> Nil ->
   exists raw before after,
     tag = before +:+ "default:" +:+
           String char.dquote (raw +:+ String char.dquote after) /\
     strings.forallb char.not_quote raw = true /\
     parser.extractDefaultFromTag tag fieldType =
       parser.parseDefaultValue raw fieldType) /\
  (forall before after,
     strings.Contains (before +:+ "default:") spec.default_open = false ->
     parser.extractDefaultFromTag
       (before +:+ spec.default_entry EmptyString +:+ after) fieldType =
     parser.parseDefaultValue EmptyString fieldType /\
     parser.parseDefaultValue EmptyString fieldType <> Nil).
Proof.
  pose proof (FindStringSubmatch_entry "default:" tag) as [Hshape Hfirst].
  unfold parser.extractDefaultFromTag.
  change parser.default_re with (spec.entry_re "default:").
  split; [|split].
  - intros Hmissing.
    rewrite (first_entry_missing "default:" tag Hmissing) in Hfirst.
    by destruct (regexp.FindStringSubmatch _ tag) as [|whole [|raw caps]].
  - intros Hsome.
    destruct (regexp.FindStringSubmatch _ tag) as [|whole [|raw caps]]; try done.
    symmetry in Hfirst.
    apply first_entry_Some in Hfirst as (Hraw & before & after & ->).
    by exists raw, before, after.
  - intros before after Hbefore.
    split; [|apply parseDefaultValue_not_Nil].
    by apply extractDefaultFromTag_text, default_text_entry.
Qed.

(** X9. The external name [extractJSONTag] reads is the text of the first
    entry [json:] of the tag up to its first comma: it holds no comma and
    no double quote, it is empty when the tag does not hold [json:] and a
    double quote, and when it is not empty the tag holds it after [json:]
    and a double quote, followed by the closing double quote or by a comma
    and the options. *)
Theorem X9_extractJSONTag (tag : string) :
  strings.forallb (fun c => char.not_quote c && negb (Ascii.eqb c ","))
                  (parser.extractJSONTag tag) = true /\
  (strings.Contains tag ("json:" +:+ String char.dquote EmptyString) = false ->
   parser.extractJSONTag tag = "") /\
  (parser.extractJSONTag tag <> "" ->
   exists before options after,
     tag = before +:+ "json:" +:+
           String char.dquote
             ((parser.extractJSONTag tag +:+ options) +:+ String char.dquote after) /\
     (options = "" \/ exists o, options = String "," o)).
Proof.
  pose proof (FindStringSubmatch_entry "json:" tag) as [Hshape Hfirst].
  unfold parser.extractJSONTag.
  change parser.json_re with (spec.entry_re "json:").
  destruct (regexp.FindStringSubmatch _ tag) as [|whole [|raw caps]].
  - split; [done|]. split; done.
  - split; [done|]. split; done.
  - symmetry in Hfirst.
    pose proof (first_entry_Some _ _ _ Hfirst) as (Hraw & before & after & Htag).
    destruct (Split_head raw ",") as (p & ps & -> & Hp & Hrest).
    assert (strings.forallb char.not_quote p = true) as Hpq.
    { destruct Hrest as [->|[o ->]]; [done|].
      rewrite forallb_append in Hraw. by apply andb_true_iff in Hraw as [? _]. }
    destruct (String.eqb_spec p "") as [->|Hne]; simpl.
    + split; [done|]. split; [|done]. intros Hmissing.
      by rewrite (first_entry_missing "json:" tag Hmissing) in Hfirst.
    + split; [|split].
      * clear -Hp Hpq. induction p as [|c p IH]; simpl in *; [done|].
        apply andb_true_iff in Hp as [-> Hp].
        apply andb_true_iff in Hpq as [-> Hpq]. simpl. by apply IH.
      * intros Hmissing.
        by rewrite (first_entry_missing "json:" tag Hmissing) in Hfirst.
      * intros _. destruct Hrest as [->|[o ->]].
        -- exists before, EmptyString, after. rewrite append_nil_r. auto.
        -- exists before, (String "," o), after. split; [done|]. right. by exists o.
Qed.

(** ** [toKebabCase] *)

Lemma no_upper_acronym_hyphens s :
  strings.forallb (fun c => negb (char.upper c)) s = true ->
  spec.acronym_hyphens s = s.
Proof.
  induction s as [|a t IH]; [done|]. simpl.
  intros [Ha Ht]%andb_true_iff. apply negb_true_iff in Ha.
  by rewrite Ha, IH.
Qed.

Lemma no_upper_camel_hyphens s :
  strings.forallb (fun c => negb (char.upper c)) s = true ->
  spec.camel_hyphens s = s.
Proof.
  induction s as [|a t IH]; [done|]. simpl.
  intros [Ha Ht]%andb_true_iff.
  assert (spec.starts_upper t = false) as ->.
  { destruct t as [|b t']; [done|]. simpl in *.
    apply andb_true_iff in Ht as [Hb _]. by apply negb_true_iff in Hb. }
  by rewrite andb_false_r, IH.
Qed.

Lemma no_upper_to_lower s :
  strings.forallb (fun c => negb (char.upper c)) s = true ->
  strings.map char.to_lower s = s.
Proof.
  induction s as [|a t IH]; [done|]. simpl.
  intros [Ha Ht]%andb_true_iff. apply negb_true_iff in Ha.
  unfold char.to_lower at 1. by rewrite Ha, IH.
Qed.

Lemma to_lower_ascii s :
  strings.forallb char.is_ascii (strings.map char.to_lower s) =
  strings.forallb char.is_ascii s.
Proof.
  induction s as [|c s IH]; [done|]. simpl. rewrite IH. f_equal.
  by destruct c as [[] [] [] [] [] [] [] []].
Qed.

Lemma to_lower_hyphen c :
  Ascii.eqb (char.to_lower c) "-" = Ascii.eqb c "-".
Proof. by destruct c as [[] [] [] [] [] [] [] []]. Qed.

Lemma without_hyphens_to_lower s :
  spec.without_hyphens (strings.map char.to_lower s) =
  strings.map char.to_lower (spec.without_hyphens s).
Proof.
  induction s as [|c s IH]; [done|]. simpl. rewrite to_lower_hyphen.
  destruct (Ascii.eqb c "-"); simpl; by rewrite IH.
Qed.

Lemma without_hyphens_acronym s :
  spec.without_hyphens (spec.acronym_hyphens s) = spec.without_hyphens s.
Proof.
  induction s as [|a t IH]; [done|]. rewrite acronym_hyphens_cons.
  destruct (char.upper a && spec.upper_lower t); simpl; by rewrite IH.
Qed.

Lemma without_hyphens_camel s :
  spec.without_hyphens (spec.camel_hyphens s) = spec.without_hyphens s.
Proof.
  induction s as [|a t IH]; [done|]. cbn [spec.camel_hyphens].
  destruct (char.lower a && spec.starts_upper t); simpl; by rewrite IH.
Qed.

Lemma toKebabCase_ascii s :
  strings.forallb char.is_ascii s = true ->
  parser.toKebabCase U s =
    strings.map char.to_lower (spec.camel_hyphens (spec.acronym_hyphens s)) /\
  strings.forallb char.is_ascii (parser.toKebabCase U s) = true /\
  strings.forallb (fun c => negb (char.upper c)) (parser.toKebabCase U s) = true.
Proof.
  intros Hs. rewrite toKebabCase_spec. unfold strings.ToLower.
  rewrite camel_hyphens_ascii, acronym_hyphens_ascii, Hs.
  split; [done|]. split.
  - by rewrite to_lower_ascii, camel_hyphens_ascii, acronym_hyphens_ascii.
  - apply map_to_lower_no_upper.
    by rewrite camel_hyphens_ascii, acronym_hyphens_ascii.
Qed.

(** X10. On a name of ASCII bytes the kebab-case conversion is idempotent,
    so that a name already in kebab-case, such as an external name written
    with hyphens, is its own flag name; and the conversion only inserts
    hyphens and lower-cases: without the hyphens, the flag name is the
    lower-cased name without its hyphens. *)
Theorem X10_toKebabCase_idempotent (s : string) :
  strings.forallb char.is_ascii s = true ->
  parser.toKebabCase U (parser.toKebabCase U s) = parser.toKebabCase U s /\
  (strings.forallb (fun c => negb (char.upper c)) s = true ->
   parser.toKebabCase U s = s) /\
  spec.without_hyphens (parser.toKebabCase U s) =
    strings.map char.to_lower (spec.without_hyphens s).
Proof.
  intros Hs.
  assert (forall t, strings.forallb char.is_ascii t = true ->
                    strings.forallb (fun c => negb (char.upper c)) t = true ->
                    parser.toKebabCase U t = t) as Hfix.
  { intros t Ht Hlow. destruct (toKebabCase_ascii t Ht) as (-> & _).
    by rewrite (no_upper_acronym_hyphens t), (no_upper_camel_hyphens t),
      no_upper_to_lower. }
  destruct (toKebabCase_ascii s Hs) as (Heq & Hascii & Hlow).
  split; [by apply Hfix|]. split; [by apply Hfix|].
  rewrite Heq, without_hyphens_to_lower.
  by rewrite without_hyphens_camel, without_hyphens_acronym.
Qed.

(** ** [parseFieldComment] *)

Lemma Join_cons_cons a t l sep :
  strings.Join ((a +:+ sep +:+ t) :: l) sep = a +:+ sep +:+ strings.Join (t :: l) sep.
Proof.
  unfold strings.Join. destruct l as [|x l]; simpl; [done|].
  by rewrite !append_assoc.
Qed.

Lemma fold_description_from acc l :
  acc <> "" ->
  foldl (fun d t => if String.eqb d "" then t else d +:+ " " +:+ t) acc l =
  strings.Join (acc :: l) " ".
Proof.
  revert acc. induction l as [|t l IH]; intros acc Hacc; [done|].
  cbn [foldl]. apply String.eqb_neq in Hacc. rewrite Hacc.
  rewrite IH; [apply Join_cons_cons|].
  apply String.eqb_neq in Hacc. by destruct acc.
Qed.

Lemma fold_description l :
  foldl (fun d t => if String.eqb d "" then t else d +:+ " " +:+ t) "" l =
  strings.Join (spec.drop_empty l) " ".
Proof.
  induction l as [|t l IH]; [done|]. cbn [foldl spec.drop_empty].
  change (String.eqb "" "") with true. cbn iota.
  destruct (String.eqb_spec t "") as [->|Ht]; [done|].
  by apply fold_description_from.
Qed.

Lemma fold_doc_lines acc comments :
  foldl (fun description c =>
           let text := parser.doc_text c in
           if strings.HasPrefix text "+" then description
           else if String.eqb description "" then text
           else description +:+ " " +:+ text) acc comments =
  foldl (fun d t => if String.eqb d "" then t else d +:+ " " +:+ t) acc
        (spec.doc_lines comments).
Proof.
  revert acc. unfold spec.doc_lines.
  induction comments as [|c comments IH]; intros acc; [done|].
  cbn [foldl fmap list_fmap List.filter]. cbv zeta.
  destruct (strings.HasPrefix (parser.doc_text c) "+"); simpl; apply IH.
Qed.

Lemma Join_drop_empty_nil l :
  strings.Join (spec.drop_empty l) " " = "" <-> spec.drop_empty l = [].
Proof.
  split; [|by intros ->].
  induction l as [|t l IH]; [done|]. cbn [spec.drop_empty].
  destruct (String.eqb_spec t "") as [->|Ht]; [done|].
  unfold strings.Join. destruct l; simpl; [done|]. by destruct t.
Qed.

(** X11. The description of a field is the texts of the comments of its
    doc block that are no annotation (no text that starts with [+]),
    joined by single spaces once the empty texts before the first text
    that is not empty are dropped.  Only these leading empty texts are
    dropped: an empty text after it is kept and joined like any other, so
    that two texts with an empty comment between them stand two spaces
    apart; when no text is empty the description is all of them joined by
    single spaces.  The inline comment is read only when the doc block is
    missing or gives no text that is not empty, and then its first comment
    alone is the description. *)
Theorem X11_parseFieldComment (comment doc : ast.CommentGroup) :
  (forall comments,
     doc = Some comments -> spec.drop_empty (spec.doc_lines comments) <> [] ->
     parser.parseFieldComment comment doc =
       strings.Join (spec.drop_empty (spec.doc_lines comments)) " " /\
     parser.parseFieldComment comment doc <> "") /\
  (doc = None \/
   (exists comments,
      doc = Some comments /\ spec.drop_empty (spec.doc_lines comments) = []) ->
   parser.parseFieldComment comment doc = spec.inline_text comment) /\
  parser.parseFieldComment None None = "" /\
  (forall comments,
     doc = Some comments ->
     spec.doc_lines comments <> [] ->
     Forall (fun text => text <> "") (spec.doc_lines comments) ->
     parser.parseFieldComment comment doc =
       strings.Join (spec.doc_lines comments) " ") /\
  (forall c1 c2 c3,
     parser.doc_text c1 <> "" ->
     strings.HasPrefix (parser.doc_text c1) "+" = false ->
     parser.doc_text c2 = "" ->
     strings.HasPrefix (parser.doc_text c3) "+" = false ->
     parser.parseFieldComment comment (Some [c1; c2; c3]) =
       parser.doc_text c1 +:+ "  " +:+ parser.doc_text c3) /\
  (forall c1 c2,
     parser.doc_text c1 = "" ->
     strings.HasPrefix (parser.doc_text c2) "+" = false ->
     parser.doc_text c2 <> "" ->
     parser.parseFieldComment comment (Some [c1; c2]) = parser.doc_text c2).
Proof.
  assert (forall comment comments,
            spec.drop_empty (spec.doc_lines comments) <> [] ->
            parser.parseFieldComment comment (Some comments) =
              strings.Join (spec.drop_empty (spec.doc_lines comments)) " " /\
            parser.parseFieldComment comment (Some comments) <> "") as Hdoc.
  { intros comment' comments Hlines. unfold parser.parseFieldComment.
    rewrite fold_doc_lines, fold_description.
    assert (strings.Join (spec.drop_empty (spec.doc_lines comments)) " " <> "") as Hne
      by (by rewrite Join_drop_empty_nil).
    apply String.eqb_neq in Hne as Hneb. rewrite Hneb.
    by destruct comment' as [[|c cs]|]. }
  split_and!.
  - intros comments ->. apply Hdoc.
  - intros [->|(comments & -> & Hlines)]; unfold parser.parseFieldComment.
    + by destruct comment as [[|c cs]|].
    + rewrite fold_doc_lines, fold_description, Hlines.
      by destruct comment as [[|c cs]|].
  - done.
  - intros comments -> Hne Hall.
    assert (spec.drop_empty (spec.doc_lines comments) = spec.doc_lines comments) as Hkeep.
    { destruct (spec.doc_lines comments) as [|t l]; [done|].
      apply Forall_cons in Hall as [Ht _]. cbn [spec.drop_empty].
      apply String.eqb_neq in Ht. by rewrite Ht. }
    destruct (Hdoc comment comments) as [Heq _]; [by rewrite Hkeep|].
    by rewrite Heq, Hkeep.
  - intros c1 c2 c3 Hc1 Hp1 Hc2 Hp3.
    assert (spec.drop_empty (spec.doc_lines [c1; c2; c3]) =
            [parser.doc_text c1; ""; parser.doc_text c3]) as Hlines.
    { unfold spec.doc_lines. cbn [fmap list_fmap List.filter].
      rewrite Hp1, Hc2, Hp3. cbn [spec.drop_empty negb strings.HasPrefix String.prefix].
      apply String.eqb_neq in Hc1. by rewrite Hc1. }
    destruct (Hdoc comment [c1; c2; c3]) as [Heq _]; [by rewrite Hlines|].
    by rewrite Heq, Hlines.
  - intros c1 c2 Hc1 Hp2 Hc2.
    assert (spec.drop_empty (spec.doc_lines [c1; c2]) = [parser.doc_text c2]) as Hlines.
    { unfold spec.doc_lines. cbn [fmap list_fmap List.filter].
      rewrite Hc1, Hp2. cbn [spec.drop_empty negb strings.HasPrefix String.prefix].
      change (String.eqb "" "") with true. cbn iota.
      apply String.eqb_neq in Hc2. by rewrite Hc2. }
    destruct (Hdoc comment [c1; c2]) as [Heq _]; [by rewrite Hlines|].
    by rewrite Heq, Hlines.
Qed.

(** ** [ParseFile] and the command *)

Lemma first_offender_resolvable fields :
  spec.first_offender U fields = None <->
  forall f n, f ∈ fields -> n ∈ ast.Names f -> ast.IsExported U n = true ->
              spec.resolvable (ast.Type_ f) = true.
Proof.
  split.
  - intros Hnone f n Hf Hn Hexp. apply parseType_resolvable.
    by eapply first_offender_None.
  - intros Hall.
    destruct (spec.first_offender U fields) as [[n err]|] eqn:Hoff; [|done].
    apply first_offender_Some in Hoff as (f & Hf & Hn & Hexp & Herr).
    specialize (Hall f n Hf Hn Hexp). apply parseType_resolvable in Hall.
    congruence.
Qed.

Lemma file_offender_None src :
  spec.file_offender U src = None <->
  forall name fields,
    (name, fields) ∈ spec.selected src -> spec.first_offender U fields = None.
Proof.
  unfold spec.file_offender. rewrite head_omap_None. split.
  - intros H name fields Hin. specialize (H _ Hin).
    unfold spec.struct_offender in H. simpl in H.
    by destruct (spec.first_offender U fields).
  - intros H [name fields] Hin. unfold spec.struct_offender. simpl.
    by rewrite (H _ _ Hin).
Qed.

Lemma build_parseStruct packageName name fields :
  spec.first_offender U fields = None ->
  parser.parseStruct U name fields packageName =
    (spec.build U packageName (name, fields), None) /\
  StructInfo.Name (spec.build U packageName (name, fields)) = name /\
  StructInfo.PackageName (spec.build U packageName (name, fields)) = packageName.
Proof.
  intros Hnone. unfold spec.build. simpl.
  destruct (parseStruct_spec name fields packageName) as [imports ->].
  by rewrite Hnone.
Qed.

(** X12. The command goes on to generate code exactly when the input file
    parses, at least one struct is declared under the annotation, and the
    type of every field of such a struct that lists an exported identifier
    resolves; the structs it generates for are then the selected structs,
    one each and in source order.  In every other case it returns an
    error: the one of the syntax, the one of the first selected struct
    with a field whose type does not resolve, or the one that no struct
    with the annotation was found. *)
Theorem X12_runFlagsGen_parse (inputFile : string) (source : parser.Source) :
  (forall structs,
     main.runFlagsGen_parse U inputFile source = inl structs <->
     exists src,
       source = parser.Parsed src /\
       spec.selected src <> [] /\
       (forall name fields f n,
          (name, fields) ∈ spec.selected src -> f ∈ fields ->
          n ∈ ast.Names f -> ast.IsExported U n = true ->
          spec.resolvable (ast.Type_ f) = true) /\
       structs = spec.build U (ast.Name src) <$> spec.selected src) /\
  (forall msg,
     main.runFlagsGen_parse U inputFile source = inr msg <->
     (exists err,
        source = parser.SyntaxError err /\
        msg = "failed to parse input file: failed to parse file " +:+ inputFile
              +:+ ": " +:+ err) \/
     (exists src o,
        source = parser.Parsed src /\ spec.file_offender U src = Some o /\
        msg = "failed to parse input file: " +:+ spec.struct_error o.1 o.2) \/
     (exists src,
        source = parser.Parsed src /\ spec.file_offender U src = None /\
        spec.selected src = [] /\
        msg = "no structs with +flags-gen annotation found in " +:+ inputFile)).
Proof.
  unfold main.runFlagsGen_parse.
  destruct source as [src|err].
  - rewrite ParseFile_spec.
    destruct (spec.file_offender U src) as [o|] eqn:Hoff.
    + split.
      * intros structs. split; [done|].
        intros (src' & [= <-] & _ & Hall & _).
        assert (spec.file_offender U src = None) as Hnone; [|congruence].
        apply file_offender_None. intros name fields Hin.
        apply first_offender_resolvable. intros f n. by apply (Hall name).
      * intros msg. split.
        -- intros [= <-]. right. left. by exists src, o.
        -- intros [(err & [=] & _)|[(src' & o' & [= <-] & Ho & ->)
                                   |(src' & [= <-] & Hnone & _)]]; congruence.
    + assert (length (spec.build U (ast.Name src) <$> spec.selected src) = 0
              <-> spec.selected src = []) as Hlen.
      { rewrite length_fmap. by destruct (spec.selected src). }
      split.
      * intros structs. case_bool_decide as Hempty.
        -- split; [done|]. intros (src' & [= <-] & Hsel & _).
           by apply Hlen in Hempty.
        -- split.
           ++ intros [= <-]. exists src. split; [done|].
              split; [by rewrite <- Hlen|]. split; [|done].
              intros name fields f n Hin.
              pose proof (proj1 (file_offender_None src) Hoff _ _ Hin) as Hnone.
              by apply first_offender_resolvable.
           ++ by intros (src' & [= <-] & _ & _ & ->).
      * intros msg. case_bool_decide as Hempty.
        -- split.
           ++ intros [= <-]. right. right. exists src. by rewrite <- Hlen.
           ++ intros [(err & [=] & _)|[(src' & o' & [= <-] & Ho & _)
                                      |(src' & [= <-] & _ & _ & ->)]];
                [congruence|done].
        -- split; [done|].
           intros [(err & [=] & _)|[(src' & o' & [= <-] & Ho & _)
                                   |(src' & [= <-] & _ & Hsel & _)]];
             [congruence|].
           by apply Hlen in Hsel.
  - simpl. split.
    + intros structs. split; [done|]. by intros (src & [=] & _).
    + intros msg. split.
      * intros [= <-]. left. by exists err.
      * intros [(err' & [= <-] & ->)|[(src & o & [=] & _)|(src & [=] & _)]].
        done.
Qed.

(** X13. Every struct [ParseFile] returns is what [parseStruct] returns,
    without error, for a struct selected by the annotation, under the name
    of its type declaration and with the package name of the file; and
    [ParseFile] never returns a struct along with an error, be it the one
    of the syntax or the one of a field. *)
Theorem X13_ParseFile_structs (filename : string) (source : parser.Source) :
  Forall (fun s =>
            exists src fields,
              source = parser.Parsed src /\
              (StructInfo.Name s, fields) ∈ spec.selected src /\
              StructInfo.PackageName s = ast.Name src /\
              parser.parseStruct U (StructInfo.Name s) fields (ast.Name src)
              = (s, None))
         (parser.ParseFile U filename source).1 /\
  ((parser.ParseFile U filename source).2 <> None ->
   (parser.ParseFile U filename source).1 = []).
Proof.
  destruct source as [src|err]; [|by split; [apply Forall_nil|]].
  rewrite ParseFile_spec.
  destruct (spec.file_offender U src) as [o|] eqn:Hoff;
    [by split; [apply Forall_nil|]|].
  split; [|done]. simpl. apply Forall_fmap, Forall_forall.
  intros [name fields] Hin. simpl.
  pose proof (proj1 (file_offender_None src) Hoff _ _ Hin) as Hnone.
  destruct (build_parseStruct (ast.Name src) name fields Hnone)
    as (Hparse & Hname & Hpkg).
  exists src, fields. rewrite Hname. by split_and!.
Qed.

(** ** The code of a default value *)

Lemma Atoi_in_range s i : strconv.Atoi s = Some i -> strconv.in_range i = true.
Proof.
  unfold strconv.Atoi.
  destruct (match s with
            | String "-" t => (true, t)
            | String "+" t => (false, t)
            | _ => (false, s)
            end) as [neg ds].
  destruct ds as [|c t]; [done|].
  destruct (strconv.digits (String c t) 0%Z) as [n|]; [|done]. simpl.
  destruct (strconv.in_range (if neg then (- n)%Z else n)) eqn:Hr; [|done].
  by intros [= <-].
Qed.

(** X14. A default of a field of a signed integer kind that
    [strconv.Atoi] reads, with its sign or leading zeros, is rendered in
    the generated code in canonical decimal form, and the code reads back
    as the same integer: the number of the tag and the number of the code
    are one. *)
Theorem X14_integer_code_reads_back (raw fieldType : string) (i : Z) :
  fieldType ∈ ["int"; "int32"; "int64"] ->
  strconv.Atoi raw = Some i ->
  parser.formatDefaultValueCode (parser.parseDefaultValue raw fieldType) fieldType
  = strconv.Itoa i /\
  strconv.Atoi
    (parser.formatDefaultValueCode (parser.parseDefaultValue raw fieldType) fieldType)
  = Some i /\
  parser.parseDefaultValue
    (parser.formatDefaultValueCode (parser.parseDefaultValue raw fieldType) fieldType)
    fieldType
  = parser.parseDefaultValue raw fieldType.
Proof.
  intros Hkind Hraw.
  pose proof (Atoi_Itoa i (Atoi_in_range raw i Hraw)) as Hback.
  assert (parser.parseDefaultValue raw fieldType = Int i /\
          parser.parseDefaultValue (strconv.Itoa i) fieldType = Int i /\
          parser.formatDefaultValueCode (Int i) fieldType = strconv.Itoa i)
    as (Hv & Hv' & Hc).
  { unfold parser.parseDefaultValue. rewrite Hraw, Hback.
    repeat (apply elem_of_cons in Hkind as [->|Hkind]); try done;
      by apply elem_of_nil in Hkind. }
  rewrite Hv, Hc. by rewrite Hv'.
Qed.

(** X15. The code of a default is composed of the text of the tag by the
    type of the field alone.  A boolean that [strconv.ParseBool] reads, in
    any of its spellings, becomes [true] or [false]; a string is put
    between quotes as it is; a list of strings becomes the literal of its
    quoted pieces, and the empty text the empty literal, which is the code
    of a field without default.  Every text left unconverted for a type
    other than these and the duration is copied to the code unchanged and
    unchecked, so that the empty default of a number gives the empty code
    and not the zero. *)
Theorem X15_default_code_by_type (raw fieldType : string) :
  (forall b, fieldType = "bool" -> strconv.ParseBool raw = Some b ->
     parser.formatDefaultValueCode (parser.parseDefaultValue raw fieldType) fieldType
     = fmt.bool_text b /\
     strconv.ParseBool (fmt.bool_text b) = Some b) /\
  (fieldType = "string" ->
   parser.formatDefaultValueCode (parser.parseDefaultValue raw fieldType) fieldType
   = fmt.quoted raw) /\
  (fieldType = "[]string" ->
   parser.formatDefaultValueCode (parser.parseDefaultValue raw fieldType) fieldType
   = (if String.eqb raw "" then parser.getZeroValue fieldType
      else "[]string{" +:+
           strings.Join (fmt.quoted <$> strings.Split raw ",") ", " +:+ "}")) /\
  (fieldType ∉ ["string"; "[]string"; "time.Duration"] ->
   parser.parseDefaultValue raw fieldType = Str raw ->
   parser.formatDefaultValueCode (parser.parseDefaultValue raw fieldType) fieldType
   = raw) /\
  (fieldType ∈ ["int"; "int32"; "int64"; "uint"; "uint32"; "uint64";
                "float32"; "float64"; "bool"] ->
   parser.formatDefaultValueCode (parser.parseDefaultValue "" fieldType) fieldType
   = "" /\
   parser.formatDefaultValueCode Nil fieldType <> "").
Proof.
  split_and!.
  - intros b -> Hb. unfold parser.parseDefaultValue. simpl. rewrite Hb.
    by destruct b.
  - by intros ->.
  - intros ->. unfold parser.parseDefaultValue. simpl.
    by destruct (String.eqb raw "").
  - intros Hnot ->. unfold parser.formatDefaultValueCode.
    destruct (String.eqb_spec fieldType "string") as [->|_].
    { exfalso. apply Hnot. set_solver. }
    destruct (String.eqb_spec fieldType "[]string") as [->|_].
    { exfalso. apply Hnot. set_solver. }
    destruct (String.eqb_spec fieldType "time.Duration") as [->|_]; [|done].
    exfalso. apply Hnot. set_solver.
  - intros Hkind.
    repeat (apply elem_of_cons in Hkind as [->|Hkind]); try done;
      by apply elem_of_nil in Hkind.
Qed.

(** ** The identifiers of one field declaration *)

Lemma span_not_quote raw after :
  strings.forallb char.not_quote raw = true ->
  spec.span char.not_quote (raw +:+ String char.dquote after) =
    (raw, String char.dquote after).
Proof.
  induction raw as [|c raw IH]; simpl; [done|].
  intros [Hc Hraw]%andb_true_iff. by rewrite Hc, (IH Hraw).
Qed.

Lemma entry_here_entry key raw after :
  strings.forallb char.not_quote raw = true ->
  spec.entry_here key
    (key +:+ String char.dquote (raw +:+ String char.dquote after)) =
  Some (raw, after).
Proof.
  intros Hraw. unfold spec.entry_here.
  change (key +:+ String char.dquote (raw +:+ String char.dquote after))
    with (key +:+ String char.dquote EmptyString +:+
          (raw +:+ String char.dquote after)).
  rewrite <- append_assoc, prefix_append, drop_append.
  by rewrite (span_not_quote raw after Hraw).
Qed.

Lemma first_entry_unfold key s :
  spec.first_entry key s =
  match spec.entry_here key s with
  | Some (raw, _) => Some raw
  | None =>
      match s with
      | String _ s' => spec.first_entry key s'
      | EmptyString => None
      end
  end.
Proof. by destruct s. Qed.

(** The first entry of a key is the entry before which the key with its
    double quote does not occur. *)
Lemma first_entry_entry key before raw after :
  strings.Contains (before +:+ key) (key +:+ String char.dquote EmptyString) = false ->
  strings.forallb char.not_quote raw = true ->
  spec.first_entry key
    (before +:+ key +:+ String char.dquote (raw +:+ String char.dquote after)) =
  Some raw.
Proof.
  intros Hbefore Hraw. induction before as [|a before IH].
  - change (EmptyString +:+ key +:+
            String char.dquote (raw +:+ String char.dquote after))
      with (key +:+ String char.dquote (raw +:+ String char.dquote after)).
    by rewrite first_entry_unfold, (entry_here_entry key raw after Hraw).
  - cbn [String.append strings.Contains] in Hbefore.
    apply orb_false_iff in Hbefore as [Hhere Hbefore].
    rewrite first_entry_unfold.
    assert (spec.entry_here key
              (String a before +:+ key +:+
               String char.dquote (raw +:+ String char.dquote after)) = None) as ->.
    { unfold spec.entry_here.
      rewrite <- append_assoc.
      change (String a before +:+ key) with (String a (before +:+ key)).
      rewrite prefix_extend; [by rewrite Hhere|].
      rewrite length_append. cbn [String.length]. rewrite length_append. simpl. lia. }
    change (String a before +:+ key +:+
            String char.dquote (raw +:+ String char.dquote after))
      with (String a (before +:+ key +:+
                      String char.dquote (raw +:+ String char.dquote after))).
    by apply IH.
Qed.

(** The first piece of a split is the text before the first separator. *)
Lemma Split_first ext rest sep :
  strings.forallb (fun c => negb (Ascii.eqb c sep)) ext = true ->
  rest = "" \/ (exists o, rest = String sep o) ->
  exists ps, strings.Split (ext +:+ rest) sep = ext :: ps.
Proof.
  intros Hext Hrest. induction ext as [|c ext IH].
  - change (EmptyString +:+ rest) with rest.
    destruct Hrest as [->|[o ->]]; simpl; [by exists []|].
    rewrite Ascii.eqb_refl. by eexists.
  - simpl in Hext. apply andb_true_iff in Hext as [Hc Hext].
    destruct (IH Hext) as [ps Hps].
    change (String c ext +:+ rest) with (String c (ext +:+ rest)).
    cbn [strings.Split]. rewrite Hps.
    destruct (Ascii.eqb c sep); [done|]. by exists ps.
Qed.

(** [extractJSONTag] returns the external name of the first json entry of
    the tag, without its options. *)
Lemma extractJSONTag_entry before ext options rest :
  strings.Contains (before +:+ "json:") spec.json_open = false ->
  strings.forallb (fun c => char.not_quote c && negb (Ascii.eqb c ",")) ext = true ->
  strings.forallb char.not_quote options = true ->
  options = "" \/ (exists o, options = String "," o) ->
  parser.extractJSONTag (before +:+ spec.json_entry ext options +:+ rest) = ext.
Proof.
  intros Hbefore Hext Hoptions Hshape.
  assert (strings.forallb char.not_quote ext = true /\
          strings.forallb (fun c => negb (Ascii.eqb c ",")) ext = true) as [Hq Hc].
  { clear -Hext. induction ext as [|c ext IH]; simpl in *; [done|].
    apply andb_true_iff in Hext as [[H1 H2]%andb_true_iff Hext].
    destruct (IH Hext) as [-> ->]. by rewrite H1, H2. }
  assert (spec.first_entry "json:" (before +:+ spec.json_entry ext options +:+ rest)
          = Some (ext +:+ options)) as Hfirst.
  { assert (spec.json_entry ext options +:+ rest =
            "json:" +:+ String char.dquote ((ext +:+ options) +:+ String char.dquote rest))
      as ->.
    { unfold spec.json_entry, fmt.quoted. simpl. by rewrite append_assoc. }
    apply first_entry_entry; [done|]. by rewrite forallb_append, Hq, Hoptions. }
  pose proof (FindStringSubmatch_entry "json:"
                (before +:+ spec.json_entry ext options +:+ rest)) as [_ Hsub].
  rewrite Hfirst in Hsub. unfold parser.extractJSONTag.
  change parser.json_re with (spec.entry_re "json:").
  destruct (regexp.FindStringSubmatch _ _) as [|whole [|raw caps]]; try done.
  injection Hsub as ->.
  destruct (Split_first ext options "," Hc Hshape) as [ps ->].
  by destruct (String.eqb_spec ext "") as [->|].
Qed.

(** A tag without [json:] and a double quote gives no external name. *)
Lemma extractJSONTag_missing tag :
  strings.Contains tag spec.json_open = false -> parser.extractJSONTag tag = "".
Proof.
  intros Hmissing.
  pose proof (FindStringSubmatch_entry "json:" tag) as [_ Hsub].
  rewrite (first_entry_missing "json:" tag Hmissing) in Hsub.
  unfold parser.extractJSONTag. change parser.json_re with (spec.entry_re "json:").
  by destruct (regexp.FindStringSubmatch _ tag) as [|whole [|raw caps]].
Qed.

Lemma shared_JSONTag_entry field ext options :
  spec.has_json_entry field ext options -> spec.shared_JSONTag field = ext.
Proof.
  intros (value & before & rest & Htag & Htrim & Hfirst & Hext & Hoptions & Hshape).
  unfold spec.shared_JSONTag. rewrite Htag, Htrim.
  by apply extractJSONTag_entry.
Qed.

Lemma shared_JSONTag_none field :
  spec.no_json_entry field -> spec.shared_JSONTag field = "".
Proof.
  unfold spec.no_json_entry, spec.shared_JSONTag.
  destruct (ast.Tag field) as [value|]; [|done]. apply extractJSONTag_missing.
Qed.

(** C10. A field declaration that lists several identifiers with one
    type, tag and comment contributes one descriptor per exported
    identifier, in the order listed, between the descriptors of the fields
    before and after it; these descriptors carry the same type, the same
    description, the same external name, default value, default-value
    code and flag method, and, when the tag supplies an external name, the
    same flag name, derived from that name.  Each of them is read from the
    declaration: the type is the one [parseType] resolves, the description
    the one of the comments of the field; the external name is the name of
    the first json entry of the tag, its options cut off, and the flag
    name its kebab-case when it is not empty, for every identifier; with
    an empty name or no json entry the flag name is the kebab-case of the
    identifier; the default value is the one of the first default entry
    of the tag, and nil without one; the flag method and the code of the
    default are those of the type. *)
Theorem C10_identifiers_of_one_declaration
    (name : string) (before after : list ast.Field) (field : ast.Field)
    (packageName : string) (info : StructInfo.t) :
  parser.parseStruct U name (before ++ field :: after) packageName = (info, None) ->
  let ds := spec.describe U field <$> List.filter (ast.IsExported U) (ast.Names field) in
  StructInfo.Fields info =
    (before ≫= spec.descriptors U) ++ ds ++ (after ≫= spec.descriptors U) /\
  FieldInfo.Name <$> ds = List.filter (ast.IsExported U) (ast.Names field) /\
  (forall d1 d2, d1 ∈ ds -> d2 ∈ ds ->
    FieldInfo.Type_ d1 = FieldInfo.Type_ d2 /\
    FieldInfo.Description d1 = FieldInfo.Description d2 /\
    FieldInfo.JSONTag d1 = FieldInfo.JSONTag d2 /\
    FieldInfo.DefaultValue d1 = FieldInfo.DefaultValue d2 /\
    FieldInfo.DefaultValueCode d1 = FieldInfo.DefaultValueCode d2 /\
    FieldInfo.FlagMethod d1 = FieldInfo.FlagMethod d2 /\
    (FieldInfo.JSONTag d1 <> "" ->
     FieldInfo.FlagName d1 = parser.toKebabCase U (FieldInfo.JSONTag d1) /\
     FieldInfo.FlagName d2 = FieldInfo.FlagName d1)) /\
  (forall d, d ∈ ds ->
    parser.parseType (ast.Type_ field) = (FieldInfo.Type_ d, None) /\
    FieldInfo.Description d =
      parser.parseFieldComment (ast.Comment field) (ast.Doc field) /\
    (forall ext options,
       spec.has_json_entry field ext options ->
       FieldInfo.JSONTag d = ext /\
       FieldInfo.FlagName d =
         parser.toKebabCase U (if String.eqb ext "" then FieldInfo.Name d else ext)) /\
    (spec.no_json_entry field ->
     FieldInfo.JSONTag d = "" /\
     FieldInfo.FlagName d = parser.toKebabCase U (FieldInfo.Name d)) /\
    (forall raw,
       spec.has_default field raw ->
       FieldInfo.DefaultValue d = parser.parseDefaultValue raw (FieldInfo.Type_ d)) /\
    (spec.no_default field -> FieldInfo.DefaultValue d = Nil) /\
    FieldInfo.FlagMethod d = (GetFlagMethod (FieldInfo.Type_ d)).1 /\
    FieldInfo.DefaultValueCode d =
      (if (GetFlagMethod (FieldInfo.Type_ d)).2
       then parser.formatDefaultValueCode (FieldInfo.DefaultValue d) (FieldInfo.Type_ d)
       else "")).
Proof.
  intros Hparse ds.
  destruct (parseStruct_spec name (before ++ field :: after) packageName)
    as [imports Hspec].
  rewrite Hparse in Hspec.
  destruct (spec.first_offender U (before ++ field :: after)) eqn:Hoff; [done|].
  injection Hspec as ->. simpl.
  split; [by rewrite bind_app, bind_cons|].
  split; [apply descriptors_Name|].
  assert (forall n, n ∈ List.filter (ast.IsExported U) (ast.Names field) ->
            exists fieldType, parser.parseType (ast.Type_ field) = (fieldType, None))
    as Hresolved.
  { intros n Hn. rewrite list_elem_of_In, filter_In in Hn. destruct Hn as [Hin Hexp].
    pose proof (first_offender_None _ field n Hoff) as Hres.
    destruct (parser.parseType (ast.Type_ field)) as [ty e] eqn:Hty.
    exists ty. f_equal. apply Hres; [|by apply list_elem_of_In|done].
    apply elem_of_app. right. by left. }
  split.
  - intros d1 d2 (n1 & -> & Hn1)%list_elem_of_fmap (n2 & -> & Hn2)%list_elem_of_fmap.
    destruct (Hresolved n1 Hn1) as [fieldType Hty].
    rewrite !(describe_resolved _ _ _ Hty). simpl.
    split_and!; try done.
    intros Hjson. apply String.eqb_neq in Hjson. by rewrite Hjson.
  - intros d (n & -> & Hn)%list_elem_of_fmap.
    destruct (Hresolved n Hn) as [fieldType Hty].
    rewrite !(describe_resolved _ _ _ Hty). simpl.
    split_and!; try done.
    + intros ext options Hentry.
      by rewrite (shared_JSONTag_entry _ _ _ Hentry).
    + intros Hnone. by rewrite (shared_JSONTag_none _ Hnone).
    + intros raw Hdefault. by apply shared_DefaultValue_default.
    + intros Hnone. by apply shared_DefaultValue_none.
Qed.

End parser_correct.

(** ** The claims at concrete inputs *)

Import types.

(** C4 at the struct of the test: the names of the descriptors are the four
    exported identifiers. *)
Lemma C4_witness :
  FieldInfo.Name <$>
    StructInfo.Fields
      (parser.parseStruct unicode.ascii_only "ServerConfig" testdata.ServerConfig "main").1
  = ["Host"; "Port"; "Debug"; "Tags"].
Proof.
  refine (eq_trans
            (proj2 (C4_one_descriptor_per_exported_field unicode.ascii_only
                      "ServerConfig" testdata.ServerConfig "main" _ None _) eq_refl) _);
    vm_compute; reflexivity.
Defined.

(** C10 at [Width, Height, depth int] with the json entry [side], between
    two other fields: the descriptors of [Width] and [Height] have the
    external name [side] and the flag name [side], both of them. *)
Lemma C10_witness :
  (FieldInfo.JSONTag (spec.describe unicode.ascii_only testdata.Box "Width") = "side" /\
   FieldInfo.FlagName (spec.describe unicode.ascii_only testdata.Box "Width") = "side") /\
  (FieldInfo.JSONTag (spec.describe unicode.ascii_only testdata.Box "Height") = "side" /\
   FieldInfo.FlagName (spec.describe unicode.ascii_only testdata.Box "Height") = "side").
Proof.
  assert (spec.has_json_entry testdata.Box "side" "") as Hentry.
  { eexists _, EmptyString, (" " +:+ spec.default_entry "3").
    split; [reflexivity|]. split; [vm_compute; reflexivity|].
    split; [vm_compute; reflexivity|]. split; [vm_compute; reflexivity|].
    split; [vm_compute; reflexivity|]. by left. }
  assert (parser.parseStruct unicode.ascii_only "Shape"
            ([testdata.Host] ++ testdata.Box :: [testdata.Debug]) "main" =
          ((parser.parseStruct unicode.ascii_only "Shape"
              [testdata.Host; testdata.Box; testdata.Debug] "main").1, None)) as Hparse
    by (vm_compute; reflexivity).
  pose proof (C10_identifiers_of_one_declaration unicode.ascii_only "Shape"
                [testdata.Host] [testdata.Debug] testdata.Box "main" _ Hparse) as H.
  cbv zeta in H. destruct H as (_ & _ & _ & Hread).
  split.
  - refine (proj1 (proj2 (proj2 (Hread _ _))) "side" "" Hentry).
    apply (list_elem_of_fmap_2 _ _ "Width"). vm_compute. apply list_elem_of_here.
  - refine (proj1 (proj2 (proj2 (Hread _ _))) "side" "" Hentry).
    apply (list_elem_of_fmap_2 _ _ "Height"). vm_compute.
    apply list_elem_of_further, list_elem_of_here.
Defined.

(** C2 at the file with [Bad struct { Limit *int }]: no descriptor, and an
    unsupported-type error. *)
Lemma C2_witness :
  exists struct' name' inner,
    parser.ParseFile unicode.ascii_only "config.go" (parser.Parsed testdata.withPointer) =
      ([], Some ("failed to parse struct " +:+ struct' +:+ ": " +:+
                 "failed to parse field " +:+ name' +:+ ": " +:+
                 "failed to parse type for field " +:+ name' +:+ ": " +:+
                 "unsupported type: " +:+ ast.go_type inner)) /\
    spec.supported_shape inner = false.
Proof.
  destruct (C2_unsupported_type_fails unicode.ascii_only "config.go"
              testdata.withPointer (Some ["// +flags-gen"])
              [ast.TypeSpec None "Bad" (ast.StructType [testdata.Limit])]
              None "Bad" [testdata.Limit] testdata.Limit "Limit")
    as (struct' & name' & inner & Hparse & Hshape & _).
  - apply list_elem_of_further, list_elem_of_here.
  - apply list_elem_of_here.
  - reflexivity.
  - apply list_elem_of_here.
  - apply list_elem_of_here.
  - reflexivity.
  - reflexivity.
  - exists struct', name', inner. split; assumption.
Defined.

(** C3 at the file of the test: the one descriptor is the one of the
    annotated struct. *)
Lemma C3_witness :
  StructInfo.Name <$>
    (parser.ParseFile unicode.ascii_only "test.go" (parser.Parsed testdata.testContent)).1
  = ["ServerConfig"].
Proof.
  refine (eq_trans
            (proj1 (proj2 (proj2
               (C3_annotation_selects_structs unicode.ascii_only "test.go"
                  testdata.testContent _ None _) eq_refl))) _);
    vm_compute; reflexivity.
Defined.

(** C3 as stated fails on the file with [Good] and [Bad]: [Good] is a
    struct declared under the annotation, and the parse gives no descriptor
    at all, for [Bad] has a field of pointer type. *)
Lemma C3_counterexample :
  testdata.Good ∈ ast.Decls testdata.withPointer /\
  testdata.Good =
    ast.GenDecl (Some ["// +flags-gen"]) ast.TYPE
      [ast.TypeSpec None "Good"
         (ast.StructType [ast.mkField None ["Host"] (ast.Ident "string") None None])] /\
  parser.hasAnnotation (Some ["// +flags-gen"]) = true /\
  parser.ParseFile unicode.ascii_only "config.go" (parser.Parsed testdata.withPointer) =
    ([], Some "failed to parse struct Bad: failed to parse field Limit: failed to parse type for field Limit: unsupported type: *ast.StarExpr").
Proof.
  split; [apply list_elem_of_here|]. repeat split.
Qed.

(** C9 at the file of the test without its annotated struct. *)
Lemma C9_witness :
  parser.ParseFile unicode.ascii_only "test.go" (parser.Parsed testdata.ignoredOnly) =
    ([], None) /\
  main.runFlagsGen_parse unicode.ascii_only "test.go" (parser.Parsed testdata.ignoredOnly) =
    inr "no structs with +flags-gen annotation found in test.go".
Proof.
  apply (C9_no_annotated_struct_is_no_error unicode.ascii_only "test.go"
           testdata.ignoredOnly).
  intros doc specs tsdoc name fields Hd Hs.
  apply list_elem_of_singleton in Hd. injection Hd as -> ->. reflexivity.
Defined.

(** C6 at [Port int] with the default [8080]. *)
Lemma C6_witness :
  FieldInfo.DefaultValue (spec.describe unicode.ascii_only testdata.Port "Port") = Int 8080.
Proof.
  refine (eq_trans
            (proj1 (proj2
               (C6_integer_default unicode.ascii_only "int" testdata.Port "Port" "8080"
                  _ _ _))) _).
  - apply list_elem_of_here.
  - reflexivity.
  - eexists _, (testdata.entry "json" "port"), EmptyString.
    split; [reflexivity|]. repeat split; vm_compute; reflexivity.
  - vm_compute; reflexivity.
Defined.

(** C6 as stated fails on [Size uint] with the default [42]: [uint] is a
    supported integer kind and [42] a base-10 integer, and the default
    stored is the text, not the integer. *)
Lemma C6_counterexample :
  GetFlagMethod "uint" = ("UintVar", true) /\
  strconv.Atoi "42" = Some 42%Z /\
  parser.parseDefaultValue "42" "uint" = Str "42" /\
  FieldInfo.DefaultValue <$>
    StructInfo.Fields (parser.parseStruct unicode.ascii_only "Buffer" [testdata.Size] "main").1
  = [Str "42"] /\
  Str "42" <> Int 42.
Proof. repeat split; try (vm_compute; reflexivity). discriminate. Qed.

(** C7 at [RequiredCRDsGracePeriod time.Duration] with the default [30s]. *)
Lemma C7_witness :
  FieldInfo.DefaultValueCode
    (spec.describe unicode.ascii_only testdata.RequiredCRDsGracePeriod
       "RequiredCRDsGracePeriod")
  = "30*time.Second".
Proof.
  refine (eq_trans
            (proj2 (proj1
               (C7_duration_default unicode.ascii_only testdata.RequiredCRDsGracePeriod
                  "RequiredCRDsGracePeriod" _) "30s" _)) _).
  - reflexivity.
  - eexists _,
      (testdata.entry "json" "requiredCRDsGracePeriod,omitempty" +:+
       testdata.entry "yaml" "requiredCRDsGracePeriod,omitempty"),
      EmptyString.
    split; [reflexivity|]. repeat split; vm_compute; reflexivity.
  - vm_compute; reflexivity.
Defined.

(** C8 at [Tags []string] with the default [web,api]. *)
Lemma C8_witness :
  FieldInfo.DefaultValue (spec.describe unicode.ascii_only testdata.Tags "Tags")
  = Strs ["web"; "api"].
Proof.
  refine (eq_trans
            (proj1 (C8_string_list_default unicode.ascii_only testdata.Tags "Tags"
                      "web,api" _ _)) _).
  - reflexivity.
  - eexists _, (testdata.entry "json" "tags"), EmptyString.
    split; [reflexivity|]. repeat split; vm_compute; reflexivity.
  - vm_compute; reflexivity.
Defined.

(** ** The further properties at the structs of the tests *)

(** X3 at a struct with a [string] field and a [time.Duration] field. *)
Lemma X3_witness :
  StructInfo.Imports
    (parser.parseStruct unicode.ascii_only "Config"
       [testdata.Host; testdata.RequiredCRDsGracePeriod] "main").1
  = ["time"].
Proof.
  refine (eq_trans
            (proj1 (X3_imports_of_duration unicode.ascii_only "Config"
                      [testdata.Host; testdata.RequiredCRDsGracePeriod] "main" _ _)) _);
    vm_compute; reflexivity.
Defined.

(** X4 at the descriptor of [Port int] in the struct of the test. *)
Lemma X4_witness :
  FieldInfo.DefaultValueCode (spec.describe unicode.ascii_only testdata.Port "Port")
  = "8080".
Proof.
  refine (eq_trans
            (proj2 (proj1 (proj2
               (X4_method_and_code_of_supported_types unicode.ascii_only
                  "ServerConfig" testdata.ServerConfig "main" _ _)) _)) _).
  - vm_compute. apply list_elem_of_further, list_elem_of_here.
  - vm_compute. apply list_elem_of_further, list_elem_of_here.
  - vm_compute; reflexivity.
Defined.

(** X10 at the name [HTTPPort]. *)
Lemma X10_witness :
  parser.toKebabCase unicode.ascii_only
    (parser.toKebabCase unicode.ascii_only "HTTPPort")
  = parser.toKebabCase unicode.ascii_only "HTTPPort".
Proof.
  exact (proj1 (X10_toKebabCase_idempotent unicode.ascii_only "HTTPPort" eq_refl)).
Defined.

(** X14 at the default [+007] of a field of type [int]. *)
Lemma X14_witness :
  parser.formatDefaultValueCode (parser.parseDefaultValue "+007" "int") "int" = "7".
Proof.
  refine (eq_trans (proj1 (X14_integer_code_reads_back "+007" "int" 7 _ _)) _).
  - apply list_elem_of_here.
  - vm_compute; reflexivity.
  - vm_compute; reflexivity.
Defined.
